(** * Multi-agent dashboard core: agent executor and pipeline engine

    A shallow embedding of [core/models.py], [core/events.py],
    [agents/base.py], [agents/orchestrator.py] and [pipelines/engine.py].

    Conventions.
    - Python [str] values are [string]s; the development reasons about
      ASCII text, so slicing, [upper()], [strip()] and the regular
      expressions act on single characters.
    - Python exceptions are values of [Exn] (class name and [str(e)]).
    - Mutable objects live in a [Store]; coroutines are trees of the
      resumption monad [Co], whose [Vis] nodes are the calls to the
      outside world.  Calls that really suspend ([await] on the network)
      are the points where [asyncio.gather] may switch to another branch.
    - [float] quantities (clock readings, latencies) are exact integers. *)

From Stdlib Require Import ZArith Lia Ascii.
From stdpp Require Import base option list strings pretty gmap.

Local Open Scope string_scope.
Local Open Scope list_scope.
Local Open Scope Z_scope.

(** ** Python values *)

Module Py.

(** An exception object: [type(e).__name__] and [str(e)]. *)
Record Exn : Type := mkExn { exc_type : string; exc_str : string }.

(** The result of running a piece of Python: an exception or a value. *)
Definition Out (A : Type) : Type := (Exn + A)%type.

(** Values produced by [json.loads]; a [JFloat m e] stands for m * 10^e. *)
#[local] Set Warnings "-register-all".
Inductive Json : Type :=
| JNull
| JBool (b : bool)
| JInt (z : Z)
| JFloat (m e : Z)
| JString (s : string)
| JArray (l : list Json)
| JObject (kv : list (string * Json)).

(** Python truthiness ([bool(x)]). *)
Definition truthy (v : Json) : bool :=
  match v with
  | JNull => false
  | JBool b => b
  | JInt z => negb (z =? 0)
  | JFloat m _ => negb (m =? 0)
  | JString s => negb (String.eqb s EmptyString)
  | JArray l => match l with [] => false | _ => true end
  | JObject kv => match kv with [] => false | _ => true end
  end.

(** [type(x).__name__] *)
Definition type_name (v : Json) : string :=
  match v with
  | JNull => "NoneType"
  | JBool _ => "bool"
  | JInt _ => "int"
  | JFloat _ _ => "float"
  | JString _ => "str"
  | JArray _ => "list"
  | JObject _ => "dict"
  end.

(** Lookup in a [dict] held as an association list with unique keys. *)
Fixpoint assoc (k : string) (kv : list (string * Json)) : option Json :=
  match kv with
  | [] => None
  | (k', v) :: kv' => if String.eqb k k' then Some v else assoc k kv'
  end.

(** [x or y] *)
Definition py_or (x y : Json) : Json := if truthy x then x else y.

(** [x.get(k, default)]: only a [dict] has the attribute [get]. *)
Definition py_get (x : Json) (k : string) (dflt : Json) : Out Json :=
  match x with
  | JObject kv => inr (default dflt (assoc k kv))
  | _ => inl (mkExn "AttributeError"
                ("'" +:+ type_name x +:+ "' object has no attribute 'get'"))
  end.

(** [x[k]] for a string key [k]. *)
Definition py_getitem (x : Json) (k : string) : Out Json :=
  match x with
  | JObject kv =>
      match assoc k kv with
      | Some v => inr v
      | None => inl (mkExn "KeyError" ("'" +:+ k +:+ "'"))
      end
  | JString _ =>
      inl (mkExn "TypeError" "string indices must be integers, not 'str'")
  | JArray _ =>
      inl (mkExn "TypeError" "list indices must be integers or slices, not str")
  | _ => inl (mkExn "TypeError"
                ("'" +:+ type_name x +:+ "' object is not subscriptable"))
  end.

(** [x == "literal"] *)
Definition py_eq_str (x : Json) (s : string) : bool :=
  match x with JString s' => String.eqb s' s | _ => false end.

End Py.
Export Py.

(** ** Text helpers *)

Module Text.

(** [s[:n]] *)
Definition str_take (n : nat) (s : string) : string := String.substring 0 n s.

(** [sep.join(l)] *)
Definition str_join (sep : string) (l : list string) : string :=
  String.concat sep l.

Definition ascii_upper (c : ascii) : ascii :=
  let n := N_of_ascii c in
  if ((97 <=? n) && (n <=? 122))%N then ascii_of_N (n - 32) else c.

(** [s.upper()] *)
Fixpoint str_upper (s : string) : string :=
  match s with
  | EmptyString => EmptyString
  | String c s' => String (ascii_upper c) (str_upper s')
  end.

(** [needle in hay] *)
Fixpoint str_contains (needle hay : string) : bool :=
  String.prefix needle hay ||
  match hay with
  | EmptyString => false
  | String _ hay' => str_contains needle hay'
  end.

(** Characters for which [str.isspace()] holds, also the class [\s]. *)
Definition is_space (c : ascii) : bool :=
  let n := N_of_ascii c in
  (((9 <=? n) && (n <=? 13)) || ((28 <=? n) && (n <=? 32)))%N.

Fixpoint lstrip (s : string) : string :=
  match s with
  | EmptyString => EmptyString
  | String c s' => if is_space c then lstrip s' else s
  end.

Fixpoint rstrip (s : string) : string :=
  match s with
  | EmptyString => EmptyString
  | String c s' =>
      match rstrip s' with
      | EmptyString => if is_space c then EmptyString else String c EmptyString
      | r => String c r
      end
  end.

(** [s.strip()] *)
Definition str_strip (s : string) : string := rstrip (lstrip s).

(** [s] starts with [tag], letter case ignored: what follows the tag. *)
Fixpoint strip_prefix_ci (tag s : string) : option string :=
  match tag, s with
  | EmptyString, _ => Some s
  | String a tag', String b s' =>
      if Ascii.eqb (ascii_upper a) (ascii_upper b)
      then strip_prefix_ci tag' s' else None
  | String _ _, EmptyString => None
  end.

(** First occurrence of [tag] in [s], letter case ignored: the text
    before it and the text after it. *)
Fixpoint find_ci (tag s : string) : option (string * string) :=
  match strip_prefix_ci tag s with
  | Some rest => Some (EmptyString, rest)
  | None =>
      match s with
      | EmptyString => None
      | String c s' =>
          match find_ci tag s' with
          | Some (pre, post) => Some (String c pre, post)
          | None => None
          end
      end
  end.

End Text.
Export Text.

(** ** core/models.py *)

Inductive AgentRole : Type :=
  ORCHESTRATOR | THINKER | SPEED | RESEARCHER | REASONER.

Inductive TaskStatus : Type :=
  PENDING | ROUTING | RUNNING | REVIEWING | COMPLETED | FAILED.

Inductive PipelineType : Type :=
  SEQUENTIAL | PARALLEL | CONSENSUS | ITERATIVE | AUTO.

Inductive EventType : Type :=
| USER_MESSAGE | ROUTING_DECISION | AGENT_START | AGENT_THINKING
| AGENT_RESPONSE | TOOL_CALL | TOOL_RESULT | PIPELINE_START | PIPELINE_STEP
| PIPELINE_COMPLETE | SYNTHESIS | ERROR | HUMAN_REQUEST | HUMAN_RESPONSE.

#[global] Instance AgentRole_eq_dec : EqDecision AgentRole.
Proof. solve_decision. Defined.
#[global] Instance TaskStatus_eq_dec : EqDecision TaskStatus.
Proof. solve_decision. Defined.
#[global] Instance PipelineType_eq_dec : EqDecision PipelineType.
Proof. solve_decision. Defined.
#[global] Instance EventType_eq_dec : EqDecision EventType.
Proof. solve_decision. Defined.

(** The [.value] of each enumeration member. *)
Definition AgentRole_value (r : AgentRole) : string :=
  match r with
  | ORCHESTRATOR => "orchestrator" | THINKER => "thinker" | SPEED => "speed"
  | RESEARCHER => "researcher" | REASONER => "reasoner"
  end.

Definition TaskStatus_value (s : TaskStatus) : string :=
  match s with
  | PENDING => "pending" | ROUTING => "routing" | RUNNING => "running"
  | REVIEWING => "reviewing" | COMPLETED => "completed" | FAILED => "failed"
  end.

Definition PipelineType_value (p : PipelineType) : string :=
  match p with
  | SEQUENTIAL => "sequential" | PARALLEL => "parallel"
  | CONSENSUS => "consensus" | ITERATIVE => "iterative" | AUTO => "auto"
  end.

Definition EventType_value (t : EventType) : string :=
  match t with
  | USER_MESSAGE => "user_message" | ROUTING_DECISION => "routing_decision"
  | AGENT_START => "agent_start" | AGENT_THINKING => "agent_thinking"
  | AGENT_RESPONSE => "agent_response" | TOOL_CALL => "tool_call"
  | TOOL_RESULT => "tool_result" | PIPELINE_START => "pipeline_start"
  | PIPELINE_STEP => "pipeline_step"
  | PIPELINE_COMPLETE => "pipeline_complete" | SYNTHESIS => "synthesis"
  | ERROR => "error" | HUMAN_REQUEST => "human_request"
  | HUMAN_RESPONSE => "human_response"
  end.

(** [AgentRole(v)] and [PipelineType(v)]: lookup of a member by value. *)
Definition AgentRole_of_value (v : Json) : option AgentRole :=
  List.find (fun r => py_eq_str v (AgentRole_value r))
    [ORCHESTRATOR; THINKER; SPEED; RESEARCHER; REASONER].

Definition PipelineType_of_value (v : Json) : option PipelineType :=
  List.find (fun p => py_eq_str v (PipelineType_value p))
    [SEQUENTIAL; PARALLEL; CONSENSUS; ITERATIVE; AUTO].

(** [class Event]; the metadata dictionary keeps its insertion order. *)
Record Event : Type := mkEvent {
  e_id : string;
  e_timestamp : Z;
  event_type : EventType;
  agent_role : option AgentRole;
  content : string;
  metadata : list (string * Z);
}.

(** [class SubTask] *)
Record SubTask : Type := mkSubTask {
  st_id : string;
  description : string;
  assigned_agent : AgentRole;
  priority : Z;
  depends_on : list string;
  skills : list string;
  st_status : TaskStatus;
  st_result : option string;
  token_usage : Z;
  latency_ms : Z;
}.

(** [class Task] *)
Record Task : Type := mkTask {
  t_id : string;
  user_input : string;
  pipeline_type : PipelineType;
  sub_tasks : list SubTask;
  t_status : TaskStatus;
  final_result : option string;
  total_tokens : Z;
  t_total_latency_ms : Z;
  t_created_at : Z;
  completed_at : option Z;
}.

(** [class AgentMetrics] *)
Record AgentMetrics : Type := mkAgentMetrics {
  total_calls : Z;
  m_total_tokens : Z;
  m_total_latency_ms : Z;
  success_count : Z;
  error_count : Z;
  last_active : option Z;
}.

Definition AgentMetrics_init : AgentMetrics := mkAgentMetrics 0 0 0 0 0 None.

(** A [Task] object is referred to by its address in the object store. *)
Definition TaskRef : Type := nat.

(** [class Thread]; [tasks] lists references to [Task] objects. *)
Record Thread : Type := mkThread {
  th_id : string;
  events : list Event;
  tasks : list TaskRef;
  agent_metrics : gmap string AgentMetrics;
  th_created_at : Z;
}.

(** The mutable state shared by all coroutines of a conversation: the
    [Thread] and the [Task] objects (with their [SubTask]s, which are
    referred to by their position in [sub_tasks]). *)
Record Store : Type := mkStore {
  thread : Thread;
  objects : list Task;
}.

Definition set_events (f : list Event -> list Event) (s : Store) : Store :=
  let th := thread s in
  mkStore (mkThread (th_id th) (f (events th)) (tasks th) (agent_metrics th)
             (th_created_at th))
          (objects s).

Definition set_tasks (f : list TaskRef -> list TaskRef) (s : Store) : Store :=
  let th := thread s in
  mkStore (mkThread (th_id th) (events th) (f (tasks th)) (agent_metrics th)
             (th_created_at th))
          (objects s).

Definition set_agent_metrics
    (f : gmap string AgentMetrics -> gmap string AgentMetrics)
    (s : Store) : Store :=
  let th := thread s in
  mkStore (mkThread (th_id th) (events th) (tasks th) (f (agent_metrics th))
             (th_created_at th))
          (objects s).

Definition set_objects (f : list Task -> list Task) (s : Store) : Store :=
  mkStore (thread s) (f (objects s)).

(** In-place update of the [Task] at [ref]. *)
Definition update_task (ref : TaskRef) (f : Task -> Task) (s : Store) : Store :=
  set_objects (alter f ref) s.

Definition set_t_status (v : TaskStatus) (t : Task) : Task :=
  mkTask (t_id t) (user_input t) (pipeline_type t) (sub_tasks t) v
    (final_result t) (total_tokens t) (t_total_latency_ms t) (t_created_at t)
    (completed_at t).

Definition set_t_total_latency_ms (v : Z) (t : Task) : Task :=
  mkTask (t_id t) (user_input t) (pipeline_type t) (sub_tasks t) (t_status t)
    (final_result t) (total_tokens t) v (t_created_at t) (completed_at t).

Definition set_final_result (v : option string) (t : Task) : Task :=
  mkTask (t_id t) (user_input t) (pipeline_type t) (sub_tasks t) (t_status t)
    v (total_tokens t) (t_total_latency_ms t) (t_created_at t)
    (completed_at t).

Definition set_sub_tasks (f : list SubTask -> list SubTask) (t : Task) : Task :=
  mkTask (t_id t) (user_input t) (pipeline_type t) (f (sub_tasks t))
    (t_status t) (final_result t) (total_tokens t) (t_total_latency_ms t)
    (t_created_at t) (completed_at t).

(** In-place update of the [i]-th [SubTask] of the task at [ref]. *)
Definition update_subtask (ref : TaskRef) (i : nat) (f : SubTask -> SubTask)
    (s : Store) : Store :=
  update_task ref (set_sub_tasks (alter f i)) s.

Definition set_st_status (v : TaskStatus) (st : SubTask) : SubTask :=
  mkSubTask (st_id st) (description st) (assigned_agent st) (priority st)
    (depends_on st) (skills st) v (st_result st) (token_usage st)
    (latency_ms st).

Definition set_st_result (v : option string) (st : SubTask) : SubTask :=
  mkSubTask (st_id st) (description st) (assigned_agent st) (priority st)
    (depends_on st) (skills st) (st_status st) v (token_usage st)
    (latency_ms st).

Definition set_latency_ms (v : Z) (st : SubTask) : SubTask :=
  mkSubTask (st_id st) (description st) (assigned_agent st) (priority st)
    (depends_on st) (skills st) (st_status st) (st_result st) (token_usage st)
    v.

(** ** External interfaces *)

(** Library functions of the Python runtime that the program calls and
    whose code is not part of the repository. *)
Class Runtime : Type := {
  (** [json.loads(s)] on a [str] *)
  json_loads : string -> Out Json;
  (** [json.dumps(x, ensure_ascii=False)] *)
  json_dumps : Json -> string;
  (** [str(x)] *)
  py_str : Json -> string;
  py_str_string : forall s, py_str (JString s) = s;
  (** pydantic validation of a [str], an [int] and a [list[str]] field *)
  validate_str : Json -> Out string;
  validate_int : Json -> Out Z;
  validate_str_list : Json -> Out (list string);
  (** [tools.skill_finder.SKILL_REGISTRY]: skill id and knowledge text *)
  SKILL_REGISTRY : list (string * string);
}.

(** One requested tool call.  The structured field of a model reply
    carries strings; calls recovered from text carry whatever JSON
    values the block held. *)
Record ToolCall : Type := mkToolCall {
  tc_id : string;
  tc_name : Json;
  tc_arguments : Json;
}.

(** An entry of the message list sent to the model. *)
Inductive Message : Type :=
| Msg (role : string) (text : string)
| AssistantToolCall (id : string) (name : Json) (arguments : Json)
| ToolMessage (tool_call_id : string) (text : string).

(** An entry of [config.MODELS]. *)
Record ModelCfg : Type := mkModelCfg {
  cfg_id : string;
  cfg_max_tokens : Z;
  cfg_temperature : string;
  cfg_top_p : string;
  cfg_extra_body : option string;
}.

(** The keyword arguments of [chat.completions.create]. *)
Record ChatRequest : Type := mkChatRequest {
  req_model : string;
  req_messages : list Message;
  req_max_tokens : Z;
  req_temperature : string;
  req_top_p : string;
  req_extra_body : option string;
  req_tools : option (list string);
  req_tool_choice : option string;
}.

Record NativeToolCall : Type := mkNativeToolCall {
  ntc_id : string;
  ntc_name : string;
  ntc_arguments : string;
}.

Record ChatMessage : Type := mkChatMessage {
  msg_content : option string;
  msg_tool_calls : option (list NativeToolCall);
  msg_reasoning_content : option string;
  msg_thinking : option string;
}.

Record Choice : Type := mkChoice {
  message : ChatMessage;
  finish_reason : string;
}.

Record Usage : Type := mkUsage {
  prompt_tokens : Z;
  completion_tokens : Z;
  u_total_tokens : Z;
}.

Record ChatResponse : Type := mkChatResponse {
  choices : list Choice;
  usage : option Usage;
}.

(** Calls to the outside world, indexed by the type of their answer.
    The tool events stand for the tool function of [tools/] followed by
    its formatting function. *)
Inductive IO : Type -> Type :=
| ChatCompletion (req : ChatRequest) : IO (Out ChatResponse)
| Web_search (query max_results : Json) : IO (Out string)
| Web_fetch (url max_chars : Json) : IO (Out string)
| Save_memory (text category tags : Json) (source_agent : string) : IO (Out Z)
| Recall_memory (query category max_results : Json) : IO (Out string)
| Find_skills (query max_results : Json) : IO (Out string)
| Monotonic : IO Z
| Now : IO Z
| Uuid4_hex : IO string
| Sched : IO bool.

(** The calls at which a coroutine is suspended and the event loop may
    run another branch: network requests, and the choice points of
    [gather] itself. *)
Definition suspends {X : Type} (e : IO X) : bool :=
  match e with
  | ChatCompletion _ | Web_search _ _ | Web_fetch _ _ | Sched => true
  | _ => false
  end.

(** ** Coroutines *)

(** A coroutine computing an [R]: it returns, raises, reads the shared
    store, updates it in place, or calls the outside world. *)
Inductive Co (R : Type) : Type :=
| Ret (r : R)
| Raise (e : Exn)
| Get (k : Store -> Co R)
| Modify (f : Store -> Store) (k : Co R)
| Vis {X : Type} (e : IO X) (k : X -> Co R).

Arguments Ret {R} r.
Arguments Raise {R} e.
Arguments Get {R} k.
Arguments Modify {R} f k.
Arguments Vis {R X} e k.

Fixpoint bind {A B : Type} (c : Co A) (f : A -> Co B) : Co B :=
  match c with
  | Ret a => f a
  | Raise e => Raise e
  | Get k => Get (fun s => bind (k s) f)
  | Modify g k => Modify g (bind k f)
  | Vis e k => Vis e (fun x => bind (k x) f)
  end.

(** [try: c except Exception as e: h e] *)
Fixpoint try_except {A : Type} (c : Co A) (h : Exn -> Co A) : Co A :=
  match c with
  | Ret a => Ret a
  | Raise e => h e
  | Get k => Get (fun s => try_except (k s) h)
  | Modify g k => Modify g (try_except k h)
  | Vis e k => Vis e (fun x => try_except (k x) h)
  end.

Declare Scope co_scope.
Delimit Scope co_scope with co.
Bind Scope co_scope with Co.

Notation "x <- c ;; k" := (bind c (fun x => k))
  (at level 100, c at next level, right associativity) : co_scope.
Notation "c ;; k" := (bind c (fun _ => k))
  (at level 100, right associativity) : co_scope.

Local Open Scope co_scope.

Definition io {X : Type} (e : IO X) : Co X := Vis e Ret.
Definition get_store : Co Store := Get Ret.
Definition modify (f : Store -> Store) : Co unit := Modify f (Ret tt).

(** Lift a pure computation that may raise. *)
Definition lift {A : Type} (o : Out A) : Co A :=
  match o with inl e => Raise e | inr a => Ret a end.

(** [for x in l: body x] *)
Fixpoint for_each {A : Type} (l : list A) (body : A -> Co unit) : Co unit :=
  match l with
  | [] => Ret tt
  | x :: l' => body x ;; for_each l' body
  end.

(** A loop that threads an accumulator through its iterations. *)
Fixpoint fold_co {A B : Type} (l : list A) (acc : B) (body : B -> A -> Co B)
    : Co B :=
  match l with
  | [] => Ret acc
  | x :: l' => acc' <- body acc x ;; fold_co l' acc' body
  end.

(** *** Running a coroutine *)

(** The outside world: a state and its answer to every call. *)
Record World : Type := mkWorld {
  wstate : Type;
  answer : forall X : Type, IO X -> wstate -> X * wstate;
}.

(** Run a coroutine to its end when nothing else is scheduled. *)
Fixpoint run (W : World) {R : Type} (c : Co R) (w : wstate W) (s : Store)
    : Out R * wstate W * Store :=
  match c with
  | Ret r => (inr r, w, s)
  | Raise e => (inl e, w, s)
  | Get k => run W (k s) w s
  | Modify f k => run W k w (f s)
  | Vis e k => let (x, w') := answer W _ e w in run W (k x) w' s
  end.

(** *** asyncio.gather *)

(** Two branches run as [asyncio] tasks.  The left one is started
    first and runs until it is suspended; then the right one does the
    same.  From then on, whenever both are suspended the event loop
    ([Sched]) chooses which one is resumed, and the resumed branch runs
    until its next suspension.  Exceptions are collected, not raised
    ([return_exceptions=True]). *)
Fixpoint par {A B : Type} (c1 : Co A) : Co B -> Co (Out A * Out B) :=
  fix par_right (c2 : Co B) : Co (Out A * Out B) :=
    let finish (o1 : Out A) : Co (Out A * Out B) :=
      match c2 with
      | Ret b => Ret (o1, inr b)
      | Raise e => Ret (o1, inl e)
      | Get k => Get (fun s => par_right (k s))
      | Modify f k => Modify f (par_right k)
      | Vis e2 k2 => Vis e2 (fun y => par_right (k2 y))
      end in
    match c1 with
    | Ret a => finish (inr a)
    | Raise e => finish (inl e)
    | Get k => Get (fun s => par (k s) c2)
    | Modify f k => Modify f (par k c2)
    | Vis e1 k1 =>
        if suspends e1 then
          match c2 with
          | Ret _ | Raise _ => Vis e1 (fun x => par (k1 x) c2)
          | Get k => Get (fun s => par_right (k s))
          | Modify f k => Modify f (par_right k)
          | Vis e2 k2 =>
              if suspends e2 then
                b <- io Sched ;;
                if b : bool then Vis e1 (fun x => par (k1 x) c2)
                else Vis e2 (fun y => par_right (k2 y))
              else Vis e2 (fun y => par_right (k2 y))
          end
        else Vis e1 (fun x => par (k1 x) c2)
    end.

(** [await asyncio.gather] of the coroutines [cs], with
    [return_exceptions=True]. *)
Fixpoint gather {A : Type} (cs : list (Co A)) : Co (list (Out A)) :=
  match cs with
  | [] => Ret []
  | c :: cs' =>
      r <- par c (gather cs') ;;
      match r.2 with
      | inr l => Ret (r.1 :: l)
      | inl e => Raise e
      end
  end.

(** ** Thread methods (core/models.py) *)

Definition nl : string := String "010"%char EmptyString.
Definition dquote : string := String "034"%char EmptyString.

(** [_uid()] *)
Definition _uid : Co string := u <- io Uuid4_hex ;; Ret (str_take 12 u).

(** [Thread.add_event(event_type, content, agent_role, **meta)] *)
Definition add_event (ty : EventType) (text : string)
    (role : option AgentRole) (meta : list (string * Z)) : Co Event :=
  uid <- _uid ;;
  now <- io Now ;;
  let event := mkEvent uid now ty role text meta in
  modify (set_events (fun evs => evs ++ [event])) ;;
  Ret event.

Definition bump_metrics (tokens latency : Z) (success : bool)
    (m : AgentMetrics) : AgentMetrics :=
  mkAgentMetrics (total_calls m + 1) (m_total_tokens m + tokens)
    (m_total_latency_ms m + latency)
    (if success then success_count m + 1 else success_count m)
    (if success then error_count m else error_count m + 1)
    (last_active m).

Definition set_last_active (now : Z) (m : AgentMetrics) : AgentMetrics :=
  mkAgentMetrics (total_calls m) (m_total_tokens m) (m_total_latency_ms m)
    (success_count m) (error_count m) (Some now).

(** [Thread.update_metrics(role, tokens, latency_ms, success)] *)
Definition update_metrics (role : AgentRole) (tokens latency : Z)
    (success : bool) : Co unit :=
  let key := AgentRole_value role in
  modify (set_agent_metrics (fun ms =>
    match ms !! key with
    | None => <[key := AgentMetrics_init]> ms
    | Some _ => ms
    end)) ;;
  modify (set_agent_metrics (alter (bump_metrics tokens latency success) key)) ;;
  now <- io Now ;;
  modify (set_agent_metrics (alter (set_last_active now) key)).

(** ** core/events.py *)

Definition pretty_Z (z : Z) : string := pretty z.

(** [serialize_event(event)] *)
Definition serialize_event (event : Event) : string :=
  let tag := EventType_value (event_type event) in
  let tag :=
    match agent_role event with
    | Some r => AgentRole_value r +:+ "_" +:+ tag
    | None => tag
    end in
  let meta_lines :=
    match metadata event with
    | [] => EmptyString
    | items =>
        let skip := ["tokens"; "thinking_content"] in
        let lines :=
          str_join nl
            (map (fun kv => "  " +:+ kv.1 +:+ ": " +:+ pretty_Z kv.2)
               (filter (fun kv => kv.1 ∉ skip) items)) in
        if String.eqb lines EmptyString then EmptyString else nl +:+ lines
    end in
  "<" +:+ tag +:+ ">" +:+ nl +:+ "  " +:+ content event +:+ meta_lines
  +:+ nl +:+ "</" +:+ tag +:+ ">".

(** [l[-n:]] *)
Definition last_n {A : Type} (n : nat) (l : list A) : list A :=
  match n with
  | O => l
  | _ => drop (length l - n) l
  end.

(** [serialize_thread_for_llm(thread, max_events, include_types)] *)
Definition serialize_thread_for_llm (th : Thread) (max_events : nat)
    (include_types : option (list EventType)) : string :=
  let evs := last_n max_events (events th) in
  let evs :=
    match include_types with
    | Some (t :: ts) => filter (fun e => event_type e ∈ t :: ts) evs
    | _ => evs
    end in
  str_join (nl +:+ nl) (map serialize_event evs).

(** [build_orchestrator_context(thread)] *)
Definition build_orchestrator_context (th : Thread) : string :=
  serialize_thread_for_llm th 40 None.

(** ** agents/base.py *)

(** *** The regular expressions *)

(** What a scan of the text yields: a character outside every match, or
    the text between the delimiters of a match. *)
Inductive Token : Type :=
| Chr (c : ascii)
| Block (body : string).

(** A match of [open.*?close] (DOTALL, IGNORECASE) at the start of [s]:
    the text between the tags and the length of the whole match. *)
Definition match_block (open close s : string) : option (string * nat) :=
  match strip_prefix_ci open s with
  | Some after =>
      match find_ci close after with
      | Some (body, rest) =>
          Some (body, (String.length s - String.length rest)%nat)
      | None => None
      end
  | None => None
  end.

(** Successive leftmost matches of [open.*?close] in [s]; [skip] counts
    the characters of the current match still to be passed over. *)
Fixpoint scan (open close : string) (skip : nat) (s : string) : list Token :=
  match s with
  | EmptyString => []
  | String c s' =>
      match skip with
      | S n => scan open close n s'
      | O =>
          match match_block open close s with
          | Some (body, len) => Block body :: scan open close (len - 1) s'
          | None => Chr c :: scan open close 0 s'
          end
      end
  end.

(** [re.sub] with the empty replacement: the text outside the matches. *)
Fixpoint outside (ts : list Token) : string :=
  match ts with
  | [] => EmptyString
  | Chr c :: ts' => String c (outside ts')
  | Block _ :: ts' => outside ts'
  end.

(** [re.findall(s)]: the captured group of every match. *)
Fixpoint blocks (ts : list Token) : list string :=
  match ts with
  | [] => []
  | Chr _ :: ts' => blocks ts'
  | Block b :: ts' => b :: blocks ts'
  end.

(** [_THINK_RE.sub] with the empty replacement *)
Definition _THINK_RE_sub (text : string) : string :=
  outside (scan "<think>" "</think>" 0 text).

(** [_THINK_OPEN_RE.sub] with the empty replacement: everything from the first
    [<think>] on is removed. *)
Definition _THINK_OPEN_RE_sub (text : string) : string :=
  match find_ci "<think>" text with
  | Some (pre, _) => pre
  | None => text
  end.

(** [_TOOL_CALL_RE.findall(text)]: the group excludes the white space
    next to the tags. *)
Definition _TOOL_CALL_RE_findall (text : string) : list string :=
  map str_strip (blocks (scan "<tool_call>" "</tool_call>" 0 text)).

(** [_TOOL_CALL_RE.sub] with the empty replacement *)
Definition _TOOL_CALL_RE_sub (text : string) : string :=
  outside (scan "<tool_call>" "</tool_call>" 0 text).

(** [_strip_thinking_tags(text)] *)
Definition _strip_thinking_tags (text : string) : string :=
  if String.eqb text EmptyString then text
  else str_strip (_THINK_OPEN_RE_sub (_THINK_RE_sub text)).

(** *** Exceptions *)

(** [try: c except (T1, T2, ...): h]: other exceptions propagate. *)
Definition try_except_types {A : Type} (types : list string) (c : Co A)
    (h : Exn -> Co A) : Co A :=
  try_except c (fun e => if bool_decide (exc_type e ∈ types) then h e else Raise e).

(** Run [c] and hand back its outcome instead of raising. *)
Definition attempt {A : Type} (c : Co A) : Co (Out A) :=
  try_except (a <- c ;; Ret (inr a)) (fun e => Ret (inl e)).

Section WithRuntime.
Context `{RT : Runtime}.

(** *** Fallback parsing of tool calls written as text *)

(** The body of the [try] in [_parse_text_tool_calls]: the call
    described by one block, if it names a function. *)
Definition parse_block (block : string) : Co (option ToolCall) :=
  data <- lift (json_loads block) ;;
  n1 <- lift (py_get data "name" JNull) ;;
  fn_name <-
    (if truthy n1 then Ret n1
     else f <- lift (py_get data "function" (JObject [])) ;;
          lift (py_get f "name" JNull)) ;;
  a1 <- lift (py_get data "arguments" JNull) ;;
  fn_args <-
    (if truthy a1 then Ret a1
     else a2 <- lift (py_get data "parameters" JNull) ;;
          if truthy a2 then Ret a2
          else f <- lift (py_get data "function" (JObject [])) ;;
               lift (py_get f "arguments" (JObject []))) ;;
  if truthy fn_name then
    let fn_args :=
      match fn_args with
      | JObject _ => JString (json_dumps fn_args)
      | _ => fn_args
      end in
    u <- io Uuid4_hex ;;
    Ret (Some (mkToolCall ("text_call_" +:+ str_take 8 u) fn_name fn_args))
  else Ret None.

(** [_parse_text_tool_calls(content)] *)
Definition _parse_text_tool_calls (text : string) : Co (option (list ToolCall)) :=
  if String.eqb text EmptyString then Ret None
  else
    match _TOOL_CALL_RE_findall text with
    | [] => Ret None
    | matches =>
        parsed <-
          fold_co matches [] (fun parsed block =>
            try_except_types ["JSONDecodeError"; "AttributeError"]
              (r <- parse_block block ;;
               match r with
               | Some call => Ret (parsed ++ [call])
               | None => Ret parsed
               end)
              (fun _ => Ret parsed)) ;;
        match parsed with
        | [] => Ret None
        | _ => Ret (Some parsed)
        end
    end.

(** *** The agent class *)

(** [BaseAgent] with the methods its subclasses override. *)
Record Agent : Type := mkAgent {
  role : AgentRole;
  model_key : string;
  cfg : ModelCfg;
  max_steps : nat;
  system_prompt : string;
  get_tools : option (list string);
  build_context : Thread -> string -> list Message;
  handle_tool_call : Json -> Json -> Co Json;
}.

(** [BaseAgent.build_context(thread, task_input)] *)
Definition BaseAgent_build_context (prompt : string) (th : Thread)
    (task_input : string) : list Message :=
  let history := serialize_thread_for_llm th 30 None in
  [Msg "system" prompt]
  ++ (if String.eqb (str_strip history) EmptyString then []
      else [Msg "user" ("Context so far:" +:+ nl +:+ history);
            Msg "assistant" "Understood. I have the context."])
  ++ [Msg "user" task_input].

(** The dictionary returned by [call_llm]. *)
Record LLMResult : Type := mkLLMResult {
  r_content : string;
  r_tool_calls : list ToolCall;
  r_finish_reason : string;
  r_tokens_prompt : Z;
  r_tokens_completion : Z;
  r_tokens_total : Z;
  r_latency_ms : Z;
  r_thinking : option string;
}.

Definition tools_offered (tools : option (list string)) : bool :=
  match tools with
  | Some (_ :: _) => true
  | _ => false
  end.

Definition str_truthy (o : option string) : bool :=
  match o with
  | Some s => negb (String.eqb s EmptyString)
  | None => false
  end.

(** [BaseAgent.call_llm(messages, tools)] *)
Definition call_llm (self : Agent) (messages : list Message)
    (tools : option (list string)) : Co LLMResult :=
  let kwargs :=
    mkChatRequest (cfg_id (cfg self)) messages (cfg_max_tokens (cfg self))
      (cfg_temperature (cfg self)) (cfg_top_p (cfg self))
      (if str_truthy (cfg_extra_body (cfg self))
       then cfg_extra_body (cfg self) else None)
      (if tools_offered tools then tools else None)
      (if tools_offered tools then Some "auto" else None) in
  t0 <- io Monotonic ;;
  reply <- io (ChatCompletion kwargs) ;;
  response <- lift reply ;;
  t1 <- io Monotonic ;;
  let latency := (t1 - t0) * 1000 in
  match choices response with
  | [] => Raise (mkExn "IndexError" "list index out of range")
  | choice :: _ =>
      let msg := message choice in
      let thinking :=
        if str_truthy (msg_reasoning_content msg)
        then msg_reasoning_content msg else msg_thinking msg in
      let raw_content := default EmptyString (msg_content msg) in
      let clean_content := _strip_thinking_tags raw_content in
      let native :=
        map (fun tc => mkToolCall (ntc_id tc) (JString (ntc_name tc))
                         (JString (ntc_arguments tc)))
            (default [] (msg_tool_calls msg)) in
      found <-
        match native with
        | [] =>
            if tools_offered tools && negb (String.eqb raw_content EmptyString) then
              text_calls <- _parse_text_tool_calls raw_content ;;
              match text_calls with
              | Some calls =>
                  Ret (calls, str_strip (_TOOL_CALL_RE_sub clean_content))
              | None => Ret ([], clean_content)
              end
            else Ret ([], clean_content)
        | _ => Ret (native, clean_content)
        end ;;
      let tok f := match usage response with Some u => f u | None => 0 end in
      Ret (mkLLMResult found.2 found.1 (finish_reason choice)
             (tok prompt_tokens) (tok completion_tokens) (tok u_total_tokens)
             latency thinking)
  end.

(** [json.loads(x)] where [x] need not be a [str]. *)
Definition json_loads_any (x : Json) : Out Json :=
  match x with
  | JString s => json_loads s
  | _ => inl (mkExn "TypeError"
                ("the JSON object must be str, bytes or bytearray, not "
                 +:+ type_name x))
  end.

(** One pass of the inner [for tc in result["tool_calls"]] loop. *)
Definition dispatch_tool_call (self : Agent) (messages : list Message)
    (tc : ToolCall) : Co (list Message) :=
  let fn_name := tc_name tc in
  fn_args <- lift (json_loads_any (tc_arguments tc)) ;;
  add_event TOOL_CALL
    (py_str fn_name +:+ "(" +:+ str_take 200 (json_dumps fn_args) +:+ ")")
    (Some (role self)) [] ;;
  tool_result <- handle_tool_call self fn_name fn_args ;;
  add_event TOOL_RESULT (str_take 500 (py_str tool_result))
    (Some (role self)) [] ;;
  Ret (messages
       ++ [AssistantToolCall (tc_id tc) fn_name (tc_arguments tc);
           ToolMessage (tc_id tc) (py_str tool_result)]).

(** The [for step in range(self.max_steps)] loop of [execute], with
    [remaining] iterations to go. *)
Fixpoint execute_loop (self : Agent) (tools : option (list string))
    (remaining : nat) (step : Z) (messages : list Message) : Co string :=
  match remaining with
  | O =>
      update_metrics (role self) 0 0 false ;;
      Ret "[Warning] Max steps reached — partial result."
  | S remaining' =>
      r <- attempt (call_llm self messages tools) ;;
      match r with
      | inl e =>
          let error_msg :=
            "LLM call failed: " +:+ exc_type e +:+ ": " +:+ exc_str e in
          add_event ERROR error_msg (Some (role self)) [] ;;
          update_metrics (role self) 0 0 false ;;
          Ret ("[Error] " +:+ error_msg)
      | inr result =>
          (if str_truthy (r_thinking result) then
             add_event AGENT_THINKING
               (str_take 500 (default EmptyString (r_thinking result)))
               (Some (role self)) [] ;;
             Ret tt
           else Ret tt) ;;
          match r_tool_calls result with
          | [] =>
              let text := r_content result in
              add_event AGENT_RESPONSE text (Some (role self))
                [("tokens", r_tokens_total result);
                 ("latency_ms", r_latency_ms result);
                 ("step", step)] ;;
              update_metrics (role self) (r_tokens_total result)
                (r_latency_ms result) true ;;
              Ret text
          | calls =>
              messages' <- fold_co calls messages (dispatch_tool_call self) ;;
              execute_loop self tools remaining' (step + 1) messages'
          end
      end
  end.

(** [BaseAgent.execute(task_input, thread)] *)
Definition execute (self : Agent) (task_input : string) : Co string :=
  add_event AGENT_START
    ("Agent " +:+ AgentRole_value (role self) +:+ " starting: "
     +:+ str_take 100 task_input)
    (Some (role self)) [] ;;
  s <- get_store ;;
  let messages := build_context self (thread s) task_input in
  let tools := get_tools self in
  execute_loop self tools (max_steps self) 0 messages.

(** [get_skill_knowledge(skill_id)] of [tools/skill_finder.py] *)
Definition get_skill_knowledge (skill_id : Json) : option string :=
  snd <$> List.find (fun sk => py_eq_str skill_id sk.1) SKILL_REGISTRY.

(** [format_skill_knowledge(skill_id, knowledge)] *)
Definition format_skill_knowledge (skill_id knowledge : string) : string :=
  "<skill id=" +:+ dquote +:+ skill_id +:+ dquote +:+ ">" +:+ nl
  +:+ knowledge +:+ nl +:+ "</skill>".

(** [BaseAgent._handle_custom_tool] *)
Definition BaseAgent_handle_custom_tool (fn_name fn_args : Json) : Co Json :=
  Ret (JString ("Tool '" +:+ py_str fn_name +:+ "' not implemented.")).

(** [BaseAgent.handle_tool_call]; [custom] is the subclass hook
    [_handle_custom_tool]. *)
Definition BaseAgent_handle_tool_call (self_role : AgentRole)
    (custom : Json -> Json -> Co Json) (fn_name fn_args : Json) : Co Json :=
  if py_eq_str fn_name "web_search" then
    query <- lift (py_getitem fn_args "query") ;;
    max_results <- lift (py_get fn_args "max_results" (JInt 5)) ;;
    r <- io (Web_search query max_results) ;;
    text <- lift r ;;
    Ret (JString text)
  else if py_eq_str fn_name "web_fetch" then
    url <- lift (py_getitem fn_args "url") ;;
    max_chars <- lift (py_get fn_args "max_chars" (JInt 8000)) ;;
    r <- io (Web_fetch url max_chars) ;;
    text <- lift r ;;
    Ret (JString text)
  else if py_eq_str fn_name "save_memory" then
    text <- lift (py_getitem fn_args "content") ;;
    category <- lift (py_get fn_args "category" (JString "general")) ;;
    tags <- lift (py_get fn_args "tags" JNull) ;;
    r <- io (Save_memory text category tags (AgentRole_value self_role)) ;;
    entry_id <- lift r ;;
    Ret (JString ("Memory saved: " +:+ pretty_Z entry_id +:+ " ["
                  +:+ py_str category +:+ "]"))
  else if py_eq_str fn_name "recall_memory" then
    query <- lift (py_getitem fn_args "query") ;;
    category <- lift (py_get fn_args "category" JNull) ;;
    max_results <- lift (py_get fn_args "max_results" (JInt 5)) ;;
    r <- io (Recall_memory query category max_results) ;;
    text <- lift r ;;
    Ret (JString text)
  else if py_eq_str fn_name "find_skill" then
    query <- lift (py_getitem fn_args "query") ;;
    max_results <- lift (py_get fn_args "max_results" (JInt 3)) ;;
    r <- io (Find_skills query max_results) ;;
    text <- lift r ;;
    Ret (JString text)
  else if py_eq_str fn_name "use_skill" then
    skill_id <- lift (py_getitem fn_args "skill_id") ;;
    match get_skill_knowledge skill_id with
    | Some (String c k) =>
        skill_id' <- lift (py_getitem fn_args "skill_id") ;;
        Ret (JString (format_skill_knowledge (py_str skill_id') (String c k)))
    | _ =>
        skill_id' <- lift (py_getitem fn_args "skill_id") ;;
        Ret (JString ("Skill '" +:+ py_str skill_id' +:+ "' not found."))
    end
  else custom fn_name fn_args.

(** *** config.py and tools/registry.py *)

(** [MODELS[model_key]]; [extra_body] is passed through unread. *)
Definition MODELS (model_key : string) : option ModelCfg :=
  if String.eqb model_key "orchestrator" then
    Some (mkModelCfg "qwen/qwen3-next-80b-a3b-instruct" 4096 "0.6" "0.7" None)
  else if String.eqb model_key "thinker" then
    Some (mkModelCfg "minimaxai/minimax-m2.1" 4096 "0.7" "0.95" None)
  else if String.eqb model_key "speed" then
    Some (mkModelCfg "stepfun-ai/step-3.5-flash" 16384 "1.0" "0.9" None)
  else if String.eqb model_key "researcher" then
    Some (mkModelCfg "z-ai/glm4.7" 16384 "1.0" "1.0"
            (Some "{'chat_template_kwargs': {'enable_thinking': False, 'clear_thinking': True}}"))
  else if String.eqb model_key "reasoner" then
    Some (mkModelCfg "nvidia/nemotron-3-nano-30b-a3b" 16384 "1.0" "1.0"
            (Some "{'reasoning_budget': 8192, 'chat_template_kwargs': {'enable_thinking': True}}"))
  else None.

(** The tool lists, by the names of the declared functions. *)
Definition ORCHESTRATOR_TOOLS : list string :=
  ["save_memory"; "recall_memory"; "decompose_task"; "direct_response";
   "synthesize_results"; "find_skill"; "use_skill"].
Definition RESEARCHER_TOOLS : list string :=
  ["web_search"; "web_fetch"; "recall_memory"; "save_memory"; "find_skill";
   "use_skill"].
Definition THINKER_TOOLS : list string := RESEARCHER_TOOLS.
Definition SPEED_TOOLS : list string := RESEARCHER_TOOLS.
Definition REASONER_TOOLS : list string :=
  ["web_search"; "recall_memory"; "save_memory"; "find_skill"; "use_skill"].

(** *** The specialist agents *)

(** [ThinkerAgent.system_prompt()] *)
Definition ThinkerAgent_system_prompt : string :=
  "You are a Deep Thinking specialist. Your strength is thorough analysis and complex reasoning."
  +:+ nl +:+ EmptyString
  +:+ nl +:+ "TOOLS AVAILABLE:"
  +:+ nl +:+ "- web_search: Search the web for current information via SearXNG"
  +:+ nl +:+ "- web_fetch: Fetch content from a URL for deeper research"
  +:+ nl +:+ "- find_skill: Search for relevant skills/knowledge to enhance your analysis"
  +:+ nl +:+ "- use_skill: Load a skill's instructions to guide your approach"
  +:+ nl +:+ EmptyString
  +:+ nl +:+ "APPROACH:"
  +:+ nl +:+ "- Before complex tasks, use find_skill to discover relevant knowledge"
  +:+ nl +:+ "- Break problems into layers and analyze each systematically"
  +:+ nl +:+ "- Consider multiple perspectives before concluding"
  +:+ nl +:+ "- Provide structured, well-reasoned responses"
  +:+ nl +:+ "- When planning, create actionable step-by-step plans"
  +:+ nl +:+ "- Highlight trade-offs and risks explicitly"
  +:+ nl +:+ EmptyString
  +:+ nl +:+ "FOCUS AREAS: Architecture design, strategic planning, complex problem decomposition, root cause analysis, decision frameworks."
  +:+ nl +:+ EmptyString
  +:+ nl +:+ "Be thorough but concise. Quality over quantity.".

(** [SpeedAgent.system_prompt()] *)
Definition SpeedAgent_system_prompt : string :=
  "You are a Speed specialist. Your strength is fast, accurate, direct responses."
  +:+ nl +:+ EmptyString
  +:+ nl +:+ "TOOLS AVAILABLE:"
  +:+ nl +:+ "- web_search: Search the web for current information via SearXNG"
  +:+ nl +:+ "- web_fetch: Fetch content from a URL when you need specific page data"
  +:+ nl +:+ "- find_skill: Search for relevant skills if the task needs specialized knowledge"
  +:+ nl +:+ "- use_skill: Load a skill's instructions"
  +:+ nl +:+ EmptyString
  +:+ nl +:+ "APPROACH:"
  +:+ nl +:+ "- Answer immediately and directly — no preamble"
  +:+ nl +:+ "- For code: write clean, working code with minimal comments"
  +:+ nl +:+ "- For questions: give the answer first, then brief explanation if needed"
  +:+ nl +:+ "- Skip unnecessary context or caveats"
  +:+ nl +:+ "- Use find_skill only when the task clearly needs specialized knowledge"
  +:+ nl +:+ EmptyString
  +:+ nl +:+ "FOCUS AREAS: Code generation, quick answers, text formatting, translations, simple calculations, data transformation."
  +:+ nl +:+ EmptyString
  +:+ nl +:+ "Speed and accuracy. No fluff.".

(** [ResearcherAgent.system_prompt()] *)
Definition ResearcherAgent_system_prompt : string :=
  "You are a Research specialist with web search and fetch capabilities."
  +:+ nl +:+ EmptyString
  +:+ nl +:+ "TOOLS AVAILABLE:"
  +:+ nl +:+ "- web_search: Search the web for current information"
  +:+ nl +:+ "- web_fetch: Fetch full content from a specific URL"
  +:+ nl +:+ "- find_skill: Search for relevant skills/knowledge"
  +:+ nl +:+ "- use_skill: Load a skill's instructions"
  +:+ nl +:+ EmptyString
  +:+ nl +:+ "APPROACH:"
  +:+ nl +:+ "- Use web_search to find relevant sources first"
  +:+ nl +:+ "- Use web_fetch to get detailed content from promising URLs"
  +:+ nl +:+ "- Use find_skill for specialized research methodologies"
  +:+ nl +:+ "- Cross-reference multiple sources when possible"
  +:+ nl +:+ "- Summarize findings clearly with source attribution"
  +:+ nl +:+ "- Distinguish facts from opinions"
  +:+ nl +:+ "- If search returns no useful results, state that clearly"
  +:+ nl +:+ EmptyString
  +:+ nl +:+ "FOCUS AREAS: Current events, technical documentation, market research, fact-checking, data gathering, literature review."
  +:+ nl +:+ EmptyString
  +:+ nl +:+ "Always cite your sources. Accuracy over speed.".

(** [ReasonerAgent.system_prompt()] *)
Definition ReasonerAgent_system_prompt : string :=
  "You are a Reasoning specialist with chain-of-thought capability."
  +:+ nl +:+ EmptyString
  +:+ nl +:+ "TOOLS AVAILABLE:"
  +:+ nl +:+ "- web_search: Search the web for verification and fact-checking"
  +:+ nl +:+ "- find_skill: Search for relevant skills if the task needs specialized knowledge"
  +:+ nl +:+ "- use_skill: Load a skill's instructions to guide your reasoning"
  +:+ nl +:+ EmptyString
  +:+ nl +:+ "APPROACH:"
  +:+ nl +:+ "- Think step by step — show your reasoning process"
  +:+ nl +:+ "- For math: show each calculation step"
  +:+ nl +:+ "- For logic: state premises, apply rules, derive conclusions"
  +:+ nl +:+ "- Verify your answer before presenting it"
  +:+ nl +:+ "- If uncertain, quantify your confidence level"
  +:+ nl +:+ "- Use find_skill for specialized domains (security, architecture, etc.)"
  +:+ nl +:+ EmptyString
  +:+ nl +:+ "FOCUS AREAS: Mathematical problems, logical deduction, code verification, proof construction, consistency checking."
  +:+ nl +:+ EmptyString
  +:+ nl +:+ "Precision and correctness above all.".

(** [OrchestratorAgent.system_prompt()] *)
Definition OrchestratorAgent_system_prompt : string :=
  "You are the Orchestrator of a multi-agent system. You coordinate 4 specialist agents:"
  +:+ nl +:+ EmptyString
  +:+ nl +:+ "AGENTS:"
  +:+ nl +:+ "- thinker (MiniMax M2.1): Deep analysis, complex reasoning, planning, architecture"
  +:+ nl +:+ "- speed (Step 3.5 Flash): Quick answers, code generation, formatting, simple tasks"
  +:+ nl +:+ "- researcher (GLM 4.7): Web search, current info, data gathering, fact-checking"
  +:+ nl +:+ "- reasoner (Nemotron 3 Nano): Math, logic, chain-of-thought, verification"
  +:+ nl +:+ EmptyString
  +:+ nl +:+ "PIPELINE TYPES:"
  +:+ nl +:+ "- sequential: Tasks flow A → B → C (each uses previous output)"
  +:+ nl +:+ "- parallel: Tasks run simultaneously, results merged"
  +:+ nl +:+ "- consensus: All agents answer same question, best selected"
  +:+ nl +:+ "- iterative: One agent produces, another reviews, refine until good"
  +:+ nl +:+ EmptyString
  +:+ nl +:+ "SKILL SYSTEM:"
  +:+ nl +:+ "- Use find_skill to discover relevant skills BEFORE decomposing tasks"
  +:+ nl +:+ "- Use use_skill to load skill knowledge when needed"
  +:+ nl +:+ "- When decomposing, you can assign skill IDs to sub-tasks via the 'skills' field"
  +:+ nl +:+ "- Skills provide specialized protocols and knowledge to agents"
  +:+ nl +:+ EmptyString
  +:+ nl +:+ "DECISION RULES:"
  +:+ nl +:+ "1. Simple question → use direct_response (no delegation)"
  +:+ nl +:+ "2. Need current info → researcher (sequential or parallel with others)"
  +:+ nl +:+ "3. Complex analysis → thinker (+ reasoner for verification if needed)"
  +:+ nl +:+ "4. Code task → speed (+ reasoner for review if complex)"
  +:+ nl +:+ "5. Math/logic → reasoner"
  +:+ nl +:+ "6. Multi-faceted → parallel pipeline with relevant agents"
  +:+ nl +:+ "7. High-stakes → consensus pipeline for reliability"
  +:+ nl +:+ "8. Specialized domain → find_skill first, then assign skills to agents"
  +:+ nl +:+ EmptyString
  +:+ nl +:+ "Use decompose_task to break work into sub-tasks."
  +:+ nl +:+ "Use direct_response for simple queries."
  +:+ nl +:+ "Use synthesize_results after all sub-tasks complete."
  +:+ nl +:+ EmptyString
  +:+ nl +:+ "Be decisive. Route efficiently. Minimize unnecessary delegation.".

(** [BaseAgent.__init__] with the class attributes of a subclass. *)
Definition BaseAgent_init (r : AgentRole) (key prompt : string)
    (tools : list string) (custom : Json -> Json -> Co Json) : Agent :=
  mkAgent r key (default (mkModelCfg EmptyString 0 EmptyString EmptyString None)
                   (MODELS key))
    10 prompt (Some tools) (BaseAgent_build_context prompt)
    (BaseAgent_handle_tool_call r custom).

Definition ThinkerAgent : Agent :=
  BaseAgent_init THINKER "thinker" ThinkerAgent_system_prompt THINKER_TOOLS
    BaseAgent_handle_custom_tool.

Definition SpeedAgent : Agent :=
  BaseAgent_init SPEED "speed" SpeedAgent_system_prompt SPEED_TOOLS
    BaseAgent_handle_custom_tool.

(** [ResearcherAgent._handle_custom_tool] *)
Definition ResearcherAgent_handle_custom_tool (fn_name fn_args : Json)
    : Co Json :=
  Ret (JString ("Unknown tool: " +:+ py_str fn_name)).

Definition ResearcherAgent : Agent :=
  BaseAgent_init RESEARCHER "researcher" ResearcherAgent_system_prompt
    RESEARCHER_TOOLS ResearcherAgent_handle_custom_tool.

Definition ReasonerAgent : Agent :=
  BaseAgent_init REASONER "reasoner" ReasonerAgent_system_prompt
    REASONER_TOOLS BaseAgent_handle_custom_tool.

(** ** pipelines/engine.py *)

(** [class PipelineEngine]: the table [_agents]. *)
Record PipelineEngine : Type := mkPipelineEngine {
  _agents : AgentRole -> option Agent;
}.

(** [PipelineEngine.__init__] *)
Definition PipelineEngine_init : PipelineEngine :=
  mkPipelineEngine (fun r =>
    match r with
    | THINKER => Some ThinkerAgent
    | SPEED => Some SpeedAgent
    | RESEARCHER => Some ResearcherAgent
    | REASONER => Some ReasonerAgent
    | ORCHESTRATOR => None
    end).

(** [PipelineEngine.get_agent(role)] *)
Definition get_agent (self : PipelineEngine) (r : AgentRole) : Co Agent :=
  match _agents self r with
  | Some a => Ret a
  | None =>
      Raise (mkExn "KeyError"
               ("<AgentRole." +:+ str_upper (AgentRole_value r) +:+ ": '"
                +:+ AgentRole_value r +:+ "'>"))
  end.

(** Dereference a [Task]; every reference held by the program points
    to an object, so the last case is never taken. *)
Definition get_task (ref : TaskRef) : Co Task :=
  s <- get_store ;;
  match objects s !! ref with
  | Some t => Ret t
  | None => Raise (mkExn "ReferenceError" "no such object")
  end.

(** The [i]-th element of [task.sub_tasks]. *)
Definition get_subtask (ref : TaskRef) (i : nat) : Co SubTask :=
  t <- get_task ref ;;
  match sub_tasks t !! i with
  | Some st => Ret st
  | None => Raise (mkExn "ReferenceError" "no such object")
  end.

(** The text injected for the skills of a sub-task. *)
Definition skill_context_of (skill_ids : list string) : string :=
  let skill_parts :=
    omap (fun skill_id =>
            match get_skill_knowledge (JString skill_id) with
            | Some (String c k) =>
                Some (format_skill_knowledge skill_id (String c k))
            | _ => None
            end) skill_ids in
  match skill_parts with
  | [] => EmptyString
  | _ =>
      nl +:+ nl +:+ "--- INJECTED SKILLS ---" +:+ nl
      +:+ "Follow these specialized protocols for this task:" +:+ nl +:+ nl
      +:+ str_join (nl +:+ nl) skill_parts
      +:+ nl +:+ "--- END SKILLS ---" +:+ nl +:+ nl
  end.

(** [PipelineEngine._run_subtask(subtask, context, thread)], the
    sub-task being the [i]-th one of the task at [ref]. *)
Definition _run_subtask (self : PipelineEngine) (ref : TaskRef) (i : nat)
    (context : string) : Co string :=
  modify (update_subtask ref i (set_st_status RUNNING)) ;;
  subtask <- get_subtask ref i ;;
  agent <- get_agent self (assigned_agent subtask) ;;
  let skill_context := skill_context_of (skills subtask) in
  add_event PIPELINE_STEP
    ("[" +:+ AgentRole_value (assigned_agent subtask) +:+ "] "
     +:+ str_take 100 (description subtask)
     +:+ match skills subtask with
         | [] => EmptyString
         | ids => " (skills: " +:+ str_join ", " ids +:+ ")"
         end)
    (Some (assigned_agent subtask)) [] ;;
  let enriched_context := skill_context +:+ context in
  t0 <- io Monotonic ;;
  result <- execute agent enriched_context ;;
  t1 <- io Monotonic ;;
  modify (update_subtask ref i (set_latency_ms ((t1 - t0) * 1000))) ;;
  modify (update_subtask ref i (set_st_status COMPLETED)) ;;
  modify (update_subtask ref i (set_st_result (Some result))) ;;
  Ret result.

(** Insertion of [i] into a list of positions ordered by [key]. *)
Fixpoint insert_by (key : nat -> Z) (i : nat) (l : list nat) : list nat :=
  match l with
  | [] => [i]
  | j :: l' => if key i <=? key j then i :: l else j :: insert_by key i l'
  end.

(** [sorted(task.sub_tasks, key=lambda s: s.priority)], as the positions
    of the sub-tasks; the sort is stable. *)
Definition sorted_by_priority (sts : list SubTask) : list nat :=
  let key i := match sts !! i with Some st => priority st | None => 0 end in
  foldr (insert_by key) [] (seq 0 (length sts)).

Definition separator : string := nl +:+ nl +:+ "---" +:+ nl +:+ nl.

(** The prompt of a sub-task in the sequential pipeline. *)
Definition sequential_prompt (request context descr : string) : string :=
  "Original request: " +:+ request +:+ nl +:+ nl +:+ "Previous context:"
  +:+ nl +:+ context +:+ nl +:+ nl +:+ "Your task: " +:+ descr.

(** [PipelineEngine._sequential(task, thread)] *)
Definition _sequential (self : PipelineEngine) (ref : TaskRef) : Co string :=
  task <- get_task ref ;;
  let context := user_input task in
  acc <-
    fold_co (sorted_by_priority (sub_tasks task)) (context, [])
      (fun acc i =>
         task <- get_task ref ;;
         subtask <- get_subtask ref i ;;
         let enriched :=
           sequential_prompt (user_input task) acc.1 (description subtask) in
         result <- _run_subtask self ref i enriched ;;
         subtask <- get_subtask ref i ;;
         Ret (result,
              acc.2 ++ ["[" +:+ AgentRole_value (assigned_agent subtask)
                        +:+ "] " +:+ result])) ;;
  Ret (str_join separator acc.2).

(** The prompt of a sub-task in the parallel pipeline. *)
Definition parallel_prompt (request descr : string) : string :=
  "Original request: " +:+ request +:+ nl +:+ nl +:+ "Your task: " +:+ descr.

(** The entry of one branch in a merged result. *)
Definition labeled_entry (r : AgentRole) (result : Out string) : string :=
  match result with
  | inl e => "[" +:+ AgentRole_value r +:+ "] Error: " +:+ exc_str e
  | inr text => "[" +:+ AgentRole_value r +:+ "] " +:+ text
  end.

(** [PipelineEngine._parallel(task, thread)] *)
Definition _parallel (self : PipelineEngine) (ref : TaskRef) : Co string :=
  task <- get_task ref ;;
  let coros :=
    imap (fun i subtask =>
            _run_subtask self ref i
              (parallel_prompt (user_input task) (description subtask)))
         (sub_tasks task) in
  results <- gather coros ;;
  task <- get_task ref ;;
  parts <-
    fold_co (zip (seq 0 (length (sub_tasks task))) results) []
      (fun parts ir =>
         subtask <- get_subtask ref ir.1 ;;
         match ir.2 with
         | inl e =>
             modify (update_subtask ref ir.1 (set_st_status FAILED)) ;;
             Ret (parts ++ [labeled_entry (assigned_agent subtask) ir.2])
         | inr _ =>
             Ret (parts ++ [labeled_entry (assigned_agent subtask) ir.2])
         end) ;;
  Ret (str_join separator parts).

Definition agents_to_use : list AgentRole :=
  [THINKER; SPEED; RESEARCHER; REASONER].

Definition consensus_header : string :=
  "CONSENSUS RESULTS — Multiple agents answered the same question:" +:+ nl.

(** [PipelineEngine._consensus(task, thread)] *)
Definition _consensus (self : PipelineEngine) (ref : TaskRef) : Co string :=
  task <- get_task ref ;;
  let question := user_input task in
  coros <-
    fold_co agents_to_use [] (fun coros r =>
      agent <- get_agent self r ;;
      Ret (coros ++ [execute agent question])) ;;
  results <- gather coros ;;
  let parts :=
    consensus_header
    :: map (fun rr => labeled_entry rr.1 rr.2) (zip agents_to_use results) in
  Ret (str_join separator parts).

(** The prompts of the iterative pipeline. *)
Definition draft_prompt (request descr : string) : string :=
  "Original request: " +:+ request +:+ nl +:+ nl +:+ "Your task: " +:+ descr.

Definition review_prompt (request : string) (round_num : Z) (draft : string)
    : string :=
  "Original request: " +:+ request +:+ nl +:+ nl
  +:+ "Draft (round " +:+ pretty_Z (round_num + 1) +:+ "):" +:+ nl +:+ draft
  +:+ nl +:+ nl
  +:+ "Review this draft. If it's good, say 'APPROVED'. "
  +:+ "Otherwise, provide specific feedback for improvement.".

Definition refine_prompt (request draft review : string) : string :=
  "Original request: " +:+ request +:+ nl +:+ nl
  +:+ "Your previous draft:" +:+ nl +:+ draft +:+ nl +:+ nl
  +:+ "Reviewer feedback:" +:+ nl +:+ review +:+ nl +:+ nl
  +:+ "Improve your draft based on this feedback.".

(** The test ["APPROVED" in review.upper()]. *)
Definition approved (review : string) : bool :=
  str_contains "APPROVED" (str_upper review).

(** The [for round_num in range(max_rounds)] loop of [_iterative]: the
    draft and the review (unbound before the first round) on exit. *)
Fixpoint iterative_rounds (ref : TaskRef) (producer reviewer : Agent)
    (rounds : nat) (round_num : Z) (draft : string) (review : option string)
    : Co (string * option string) :=
  match rounds with
  | O => Ret (draft, review)
  | S rounds' =>
      task <- get_task ref ;;
      review <- execute reviewer (review_prompt (user_input task) round_num draft) ;;
      if approved review then Ret (draft, Some review)
      else
        task <- get_task ref ;;
        draft <- execute producer (refine_prompt (user_input task) draft review) ;;
        iterative_rounds ref producer reviewer rounds' (round_num + 1) draft
          (Some review)
  end.

(** [PipelineEngine._iterative(task, thread, max_rounds)] *)
Definition _iterative (self : PipelineEngine) (ref : TaskRef)
    (max_rounds : nat) : Co string :=
  task <- get_task ref ;;
  if bool_decide (length (sub_tasks task) < 2)%nat then _sequential self ref
  else
    producer_task <- get_subtask ref 0 ;;
    reviewer_task <- get_subtask ref 1 ;;
    producer <- get_agent self (assigned_agent producer_task) ;;
    reviewer <- get_agent self (assigned_agent reviewer_task) ;;
    draft <- execute producer
               (draft_prompt (user_input task) (description producer_task)) ;;
    final <- iterative_rounds ref producer reviewer max_rounds 0 draft None ;;
    modify (update_subtask ref 0 (set_st_result (Some final.1))) ;;
    match final.2 with
    | None =>
        Raise (mkExn "UnboundLocalError"
                 "cannot access local variable 'review' where it is not associated with a value")
    | Some review =>
        modify (update_subtask ref 1 (set_st_result (Some review))) ;;
        Ret final.1
    end.

(** [PipelineEngine.execute(task, thread)] *)
Definition PipelineEngine_execute (self : PipelineEngine) (ref : TaskRef)
    : Co string :=
  modify (update_task ref (set_t_status RUNNING)) ;;
  task <- get_task ref ;;
  add_event PIPELINE_START
    ("Starting " +:+ PipelineType_value (pipeline_type task)
     +:+ " pipeline with " +:+ pretty (length (sub_tasks task))
     +:+ " sub-tasks")
    None [] ;;
  t0 <- io Monotonic ;;
  r <- attempt
         (task <- get_task ref ;;
          result <-
            match pipeline_type task with
            | SEQUENTIAL => _sequential self ref
            | PARALLEL => _parallel self ref
            | CONSENSUS => _consensus self ref
            | ITERATIVE => _iterative self ref 3
            | AUTO => _sequential self ref
            end ;;
          modify (update_task ref (set_t_status COMPLETED)) ;;
          t1 <- io Monotonic ;;
          modify (update_task ref (set_t_total_latency_ms ((t1 - t0) * 1000))) ;;
          Ret result) ;;
  result <-
    match r with
    | inr result => Ret result
    | inl e =>
        modify (update_task ref (set_t_status FAILED)) ;;
        let result := "[Pipeline Error] " +:+ exc_str e in
        add_event ERROR result None [] ;;
        Ret result
    end ;;
  task <- get_task ref ;;
  add_event PIPELINE_COMPLETE
    ("Pipeline " +:+ PipelineType_value (pipeline_type task) +:+ " completed: "
     +:+ TaskStatus_value (t_status task))
    None [("latency_ms", t_total_latency_ms task)] ;;
  Ret result.

(** ** agents/orchestrator.py *)

(** The items a [for] loop draws from a JSON value. *)
Definition py_iter (x : Json) : Out (list Json) :=
  match x with
  | JArray l => inr l
  | JObject kv => inr (map (fun p => JString p.1) kv)
  | JString s =>
      inr (map (fun c => JString (String c EmptyString))
             (String.list_ascii_of_string s))
  | _ => inl (mkExn "TypeError"
                ("'" +:+ type_name x +:+ "' object is not iterable"))
  end.

(** [SubTask(description=..., assigned_agent=..., priority=...,
    depends_on=..., skills=...)] for one entry of the decomposition. *)
Definition make_subtask (st_data : Json) : Co SubTask :=
  descr <- lift (py_getitem st_data "description") ;;
  agent_name <- lift (py_getitem st_data "assigned_agent") ;;
  agent <-
    match AgentRole_of_value agent_name with
    | Some r => Ret r
    | None =>
        Raise (mkExn "ValueError"
                 (json_dumps agent_name +:+ " is not a valid AgentRole"))
    end ;;
  prio <- lift (py_get st_data "priority" (JInt 1)) ;;
  deps <- lift (py_get st_data "depends_on" (JArray [])) ;;
  skill_ids <- lift (py_get st_data "skills" (JArray [])) ;;
  descr <- lift (validate_str descr) ;;
  prio <- lift (validate_int prio) ;;
  deps <- lift (validate_str_list deps) ;;
  skill_ids <- lift (validate_str_list skill_ids) ;;
  uid <- _uid ;;
  Ret (mkSubTask uid descr agent prio deps skill_ids PENDING None 0 0).

(** [OrchestratorAgent._handle_decompose(fn_args, thread)] *)
Definition _handle_decompose (fn_args : Json) : Co Json :=
  pipeline_str <- lift (py_get fn_args "pipeline_type" (JString "sequential")) ;;
  pipeline <-
    match PipelineType_of_value pipeline_str with
    | Some p => Ret p
    | None =>
        Raise (mkExn "ValueError"
                 (json_dumps pipeline_str +:+ " is not a valid PipelineType"))
    end ;;
  entries <- lift (py_get fn_args "sub_tasks" (JArray [])) ;;
  entries <- lift (py_iter entries) ;;
  subs <-
    fold_co entries [] (fun subs st_data =>
      st <- make_subtask st_data ;;
      Ret (subs ++ [st])) ;;
  s <- get_store ;;
  let request :=
    match last (events (thread s)) with
    | Some ev => content ev
    | None => EmptyString
    end in
  uid <- _uid ;;
  now <- io Now ;;
  let task := mkTask uid request pipeline subs PENDING None 0 0 now None in
  modify (fun s =>
    set_tasks (fun refs => refs ++ [length (objects s)])
      (set_objects (fun objs => objs ++ [task]) s)) ;;
  reasoning <- lift (py_get fn_args "reasoning" (JString EmptyString)) ;;
  add_event ROUTING_DECISION
    ("Pipeline: " +:+ PipelineType_value pipeline +:+ " | Sub-tasks: "
     +:+ pretty (length subs) +:+ " | " +:+ py_str reasoning)
    (Some ORCHESTRATOR) [] ;;
  let summary_parts :=
    ("Task decomposed → " +:+ PipelineType_value pipeline +:+ " pipeline:")
    :: imap (fun i st =>
               "  " +:+ pretty (S i) +:+ ". ["
               +:+ AgentRole_value (assigned_agent st) +:+ "] "
               +:+ description st) subs in
  Ret (JString (str_join nl summary_parts)).

(** [OrchestratorAgent.handle_tool_call] *)
Definition OrchestratorAgent_handle_tool_call (fn_name fn_args : Json)
    : Co Json :=
  if py_eq_str fn_name "decompose_task" then _handle_decompose fn_args
  else if py_eq_str fn_name "direct_response" then
    lift (py_get fn_args "response" (JString EmptyString))
  else if py_eq_str fn_name "synthesize_results" then
    lift (py_get fn_args "final_response" (JString EmptyString))
  else
    BaseAgent_handle_tool_call ORCHESTRATOR BaseAgent_handle_custom_tool
      fn_name fn_args.

(** [OrchestratorAgent.build_context] *)
Definition OrchestratorAgent_build_context (th : Thread)
    (task_input : string) : list Message :=
  let history := build_orchestrator_context th in
  [Msg "system" OrchestratorAgent_system_prompt]
  ++ (if String.eqb (str_strip history) EmptyString then []
      else [Msg "user" ("Thread history:" +:+ nl +:+ history);
            Msg "assistant" "I have the full context."])
  ++ [Msg "user" task_input].

Definition OrchestratorAgent : Agent :=
  mkAgent ORCHESTRATOR "orchestrator"
    (default (mkModelCfg EmptyString 0 EmptyString EmptyString None)
       (MODELS "orchestrator"))
    10 OrchestratorAgent_system_prompt (Some ORCHESTRATOR_TOOLS)
    OrchestratorAgent_build_context OrchestratorAgent_handle_tool_call.

(** The scan of the last five events for a [direct_response] call. *)
Definition direct_response_seen (evs : list Event) : bool :=
  existsb (fun ev =>
             bool_decide (event_type ev = TOOL_CALL)
             && str_contains "direct_response" (content ev))
    (rev (last_n 5 evs)).

(** [OrchestratorAgent.route_and_execute(user_input, thread)] *)
Definition route_and_execute (request : string) : Co string :=
  add_event USER_MESSAGE request None [] ;;
  decision <- execute OrchestratorAgent request ;;
  s <- get_store ;;
  if direct_response_seen (events (thread s)) then Ret decision
  else
    match last (tasks (thread s)) with
    | None => Ret decision
    | Some current_task =>
        task <- get_task current_task ;;
        match sub_tasks task with
        | [] => Ret decision
        | _ =>
            let engine := PipelineEngine_init in
            result <- PipelineEngine_execute engine current_task ;;
            let synth_input :=
              "The specialists have completed their work. Here are the results:"
              +:+ nl +:+ nl +:+ result +:+ nl +:+ nl
              +:+ "Original user request: " +:+ request +:+ nl +:+ nl
              +:+ "Synthesize a clear, comprehensive final response." in
            final <- execute OrchestratorAgent synth_input ;;
            modify (update_task current_task (set_final_result (Some final))) ;;
            Ret final
        end
    end.

End WithRuntime.

(** ** A runtime and a scripted world for concrete runs *)

(** A reader and printer for the JSON subset without fractions,
    exponents and [\u] escapes, enough to run the model on examples. *)
Module MiniJson.

Definition is_json_ws (c : ascii) : bool :=
  let n := N_of_ascii c in
  ((n =? 32) || (n =? 9) || (n =? 10) || (n =? 13))%N.

Fixpoint skip_ws (s : string) : string :=
  match s with
  | String c s' => if is_json_ws c then skip_ws s' else s
  | EmptyString => s
  end.

Definition digit_of (c : ascii) : option Z :=
  let n := N_of_ascii c in
  if ((48 <=? n) && (n <=? 57))%N then Some (Z.of_N (n - 48)) else None.

(** The digits at the start of [s], read after the digits [acc]. *)
Fixpoint read_digits (acc : Z) (seen : bool) (s : string)
    : option (Z * string) :=
  match s with
  | String c s' =>
      match digit_of c with
      | Some d => read_digits (10 * acc + d) true s'
      | None => if seen then Some (acc, s) else None
      end
  | EmptyString => if seen then Some (acc, s) else None
  end.

(** The characters of a string literal after its opening quote. *)
Fixpoint read_string (s : string) : option (string * string) :=
  match s with
  | EmptyString => None
  | String c s' =>
      if Ascii.eqb c "034" then Some (EmptyString, s')
      else if Ascii.eqb c "092" then
        match s' with
        | String e s'' =>
            let unescaped :=
              if Ascii.eqb e "n" then Some "010"%char
              else if Ascii.eqb e "t" then Some "009"%char
              else if Ascii.eqb e "r" then Some "013"%char
              else if Ascii.eqb e "b" then Some "008"%char
              else if Ascii.eqb e "f" then Some "012"%char
              else if Ascii.eqb e "034" then Some "034"%char
              else if Ascii.eqb e "092" then Some "092"%char
              else if Ascii.eqb e "/" then Some "/"%char
              else None in
            match unescaped, read_string s'' with
            | Some u, Some (body, rest) => Some (String u body, rest)
            | _, _ => None
            end
        | EmptyString => None
        end
      else if (N_of_ascii c <? 32)%N then None
      else
        match read_string s' with
        | Some (body, rest) => Some (String c body, rest)
        | None => None
        end
  end.

(** [d[k] = v] on a dictionary held as an association list. *)
Fixpoint dict_set (k : string) (v : Json) (kv : list (string * Json))
    : list (string * Json) :=
  match kv with
  | [] => [(k, v)]
  | (k', v') :: kv' =>
      if String.eqb k k' then (k, v) :: kv' else (k', v') :: dict_set k v kv'
  end.

(** [s] without its prefix [p]. *)
Definition strip_prefix (p s : string) : option string :=
  if String.prefix p s
  then Some (String.substring (String.length p) (String.length s) s)
  else None.

Fixpoint read_value (fuel : nat) (s : string) : option (Json * string) :=
  match fuel with
  | O => None
  | S fuel' =>
      match skip_ws s with
      | EmptyString => None
      | String c rest =>
          if Ascii.eqb c "n" then
            option_map (pair JNull) (strip_prefix "ull" rest)
          else if Ascii.eqb c "t" then
            option_map (pair (JBool true)) (strip_prefix "rue" rest)
          else if Ascii.eqb c "f" then
            option_map (pair (JBool false)) (strip_prefix "alse" rest)
          else if Ascii.eqb c "034" then
            match read_string rest with
            | Some (body, rest') => Some (JString body, rest')
            | None => None
            end
          else if Ascii.eqb c "[" then
            match skip_ws rest with
            | String "]" rest' => Some (JArray [], rest')
            | rest' => read_elements fuel' rest' []
            end
          else if Ascii.eqb c "{" then
            match skip_ws rest with
            | String "}" rest' => Some (JObject [], rest')
            | rest' => read_members fuel' rest' []
            end
          else if Ascii.eqb c "-" then
            match read_digits 0 false rest with
            | Some (z, rest') => Some (JInt (- z), rest')
            | None => None
            end
          else
            match read_digits 0 false (String c rest) with
            | Some (z, rest') => Some (JInt z, rest')
            | None => None
            end
      end
  end
with read_elements (fuel : nat) (s : string) (acc : list Json)
    : option (Json * string) :=
  match fuel with
  | O => None
  | S fuel' =>
      match read_value fuel' s with
      | Some (v, rest) =>
          match skip_ws rest with
          | String "," rest' => read_elements fuel' rest' (acc ++ [v])
          | String "]" rest' => Some (JArray (acc ++ [v]), rest')
          | _ => None
          end
      | None => None
      end
  end
with read_members (fuel : nat) (s : string) (acc : list (string * Json))
    : option (Json * string) :=
  match fuel with
  | O => None
  | S fuel' =>
      match skip_ws s with
      | String "034" rest =>
          match read_string rest with
          | Some (key, rest') =>
              match skip_ws rest' with
              | String ":" rest'' =>
                  match read_value fuel' rest'' with
                  | Some (v, rest3) =>
                      match skip_ws rest3 with
                      | String "," rest4 =>
                          read_members fuel' rest4 (dict_set key v acc)
                      | String "}" rest4 =>
                          Some (JObject (dict_set key v acc), rest4)
                      | _ => None
                      end
                  | None => None
                  end
              | _ => None
              end
          | None => None
          end
      | _ => None
      end
  end.

Definition backslash : string := String "092" EmptyString.

(** The characters of [s] as they stand inside a JSON string literal. *)
Fixpoint escape (s : string) : string :=
  match s with
  | EmptyString => EmptyString
  | String c s' =>
      (if Ascii.eqb c "034" then backslash +:+ dquote
       else if Ascii.eqb c "092" then backslash +:+ backslash
       else if Ascii.eqb c "010" then backslash +:+ "n"
       else if Ascii.eqb c "013" then backslash +:+ "r"
       else if Ascii.eqb c "009" then backslash +:+ "t"
       else String c EmptyString) +:+ escape s'
  end.

Definition quote (s : string) : string := dquote +:+ escape s +:+ dquote.

(** [json.dumps(v, ensure_ascii=False)] *)
Fixpoint dumps (v : Json) : string :=
  match v with
  | JNull => "null"
  | JBool b => if b then "true" else "false"
  | JInt z => pretty z
  | JFloat m e => pretty m +:+ "e" +:+ pretty e
  | JString s => quote s
  | JArray l => "[" +:+ str_join ", " (map dumps l) +:+ "]"
  | JObject kv =>
      "{" +:+ str_join ", "
                (map (fun p => let '(k, x) := p in quote k +:+ ": " +:+ dumps x)
                   kv)
      +:+ "}"
  end.

(** [repr(v)] *)
Fixpoint repr (v : Json) : string :=
  match v with
  | JNull => "None"
  | JBool b => if b then "True" else "False"
  | JInt z => pretty z
  | JFloat m e => pretty m +:+ "e" +:+ pretty e
  | JString s => "'" +:+ s +:+ "'"
  | JArray l => "[" +:+ str_join ", " (map repr l) +:+ "]"
  | JObject kv =>
      "{" +:+ str_join ", "
                (map (fun p => let '(k, x) := p in
                               "'" +:+ k +:+ "': " +:+ repr x) kv)
      +:+ "}"
  end.

Definition str (v : Json) : string :=
  match v with
  | JString s => s
  | _ => repr v
  end.

Definition loads (s : string) : Out Json :=
  match read_value (2 * String.length s + 2) s with
  | Some (v, rest) =>
      match skip_ws rest with
      | EmptyString => inr v
      | _ => inl (mkExn "JSONDecodeError" "Extra data")
      end
  | None => inl (mkExn "JSONDecodeError" "Expecting value")
  end.

Definition as_str (v : Json) : Out string :=
  match v with
  | JString s => inr s
  | _ => inl (mkExn "ValidationError" "Input should be a valid string")
  end.

Definition as_int (v : Json) : Out Z :=
  match v with
  | JInt z => inr z
  | _ => inl (mkExn "ValidationError" "Input should be a valid integer")
  end.

Definition as_str_list (v : Json) : Out (list string) :=
  match v with
  | JArray l =>
      foldr (fun x acc =>
               match as_str x, acc with
               | inr s, inr ss => inr (s :: ss)
               | inl e, _ => inl e
               | _, inl e => inl e
               end) (inr []) l
  | _ => inl (mkExn "ValidationError" "Input should be a valid list")
  end.

End MiniJson.

(** The runtime used in the concrete runs; its skill table has one entry. *)
#[export] Instance ExampleRuntime : Runtime := {|
  json_loads := MiniJson.loads;
  json_dumps := MiniJson.dumps;
  py_str := MiniJson.str;
  py_str_string := fun _ => eq_refl;
  validate_str := MiniJson.as_str;
  validate_int := MiniJson.as_int;
  validate_str_list := MiniJson.as_str_list;
  SKILL_REGISTRY := [("deep-research", "DEEP RESEARCH PROTOCOL:")];
|}.

(** A world that plays back a list of model replies and of scheduling
    choices; its clock advances by one at every call. *)
Record Script : Type := mkScript {
  tick : Z;
  replies : list (Out ChatResponse);
  choices_left : list bool;
}.

Definition advance (w : Script) : Script :=
  mkScript (tick w + 1) (replies w) (choices_left w).

Definition scripted_answer (X : Type) (e : IO X) (w : Script) : X * Script :=
  match e in IO T return T * Script with
  | ChatCompletion _ =>
      match replies w with
      | r :: rs => (r, mkScript (tick w + 1) rs (choices_left w))
      | [] => (inl (mkExn "APIConnectionError" "Connection error."), advance w)
      end
  | Web_search _ _ => (inr "<search_results></search_results>", advance w)
  | Web_fetch _ _ => (inr "<web_page></web_page>", advance w)
  | Save_memory _ _ _ _ => (inr (tick w), advance w)
  | Recall_memory _ _ _ => (inr "No relevant memories found.", advance w)
  | Find_skills _ _ => (inr "<skills></skills>", advance w)
  | Monotonic => (tick w, advance w)
  | Now => (tick w, advance w)
  | Uuid4_hex =>
      (str_take 32 (pretty (tick w) +:+ "00000000000000000000000000000000"),
       advance w)
  | Sched =>
      match choices_left w with
      | b :: bs => (b, mkScript (tick w + 1) (replies w) bs)
      | [] => (true, advance w)
      end
  end.

Definition ScriptedWorld : World := mkWorld Script scripted_answer.

(** A reply of the model: visible text and structured tool calls. *)
Definition reply (text : string) (calls : list NativeToolCall)
    : Out ChatResponse :=
  inr (mkChatResponse
         [mkChoice (mkChatMessage (Some text)
                      (match calls with [] => None | _ => Some calls end)
                      None None)
            "stop"]
         (Some (mkUsage 7 5 12))).

Definition empty_store : Store :=
  mkStore (mkThread "t0" [] [] ∅ 0) [].



(** ** Observations and specifications *)

Local Open Scope co_scope.

(** The replies of the model received during a run, in order. *)
Definition llm_reply {X : Type} (e : IO X) : X -> option (Out ChatResponse) :=
  match e in IO T return T -> option (Out ChatResponse) with
  | ChatCompletion _ => fun x => Some x
  | _ => fun _ => None
  end.

Fixpoint llm_replies (W : World) {R : Type} (c : Co R) (w : wstate W)
    (s : Store) : list (Out ChatResponse) :=
  match c with
  | Ret _ | Raise _ => []
  | Get k => llm_replies W (k s) w s
  | Modify f k => llm_replies W k w (f s)
  | Vis e k =>
      let (x, w') := answer W _ e w in
      match llm_reply e x with
      | Some r => r :: llm_replies W (k x) w' s
      | None => llm_replies W (k x) w' s
      end
  end.

(** A coroutine that never calls the model. *)
Fixpoint no_llm {R : Type} (c : Co R) : Prop :=
  match c with
  | Ret _ | Raise _ => True
  | Get k => forall s, no_llm (k s)
  | Modify _ k => no_llm k
  | Vis e k =>
      match e with ChatCompletion _ => False | _ => True end
      /\ forall x, no_llm (k x)
  end.

(** Every update of the store made by the coroutine is a [G]-step. *)
Fixpoint guar (G : relation Store) {R : Type} (c : Co R) : Prop :=
  match c with
  | Ret _ | Raise _ => True
  | Get k => forall s, guar G (k s)
  | Modify f k => (forall s, G s (f s)) /\ guar G k
  | Vis _ k => forall x, guar G (k x)
  end.

(** Rely-guarantee specification of a coroutine started in store [s]:
    while it is suspended the other branches change the store by
    [Rl]-steps; its own updates are [G]-steps; when it ends with outcome
    [o] in store [s'], [Q o s'] holds. *)
Fixpoint rgwp (Rl G : relation Store) {R : Type} (c : Co R)
    (Q : Out R -> Store -> Prop) (s : Store) : Prop :=
  match c with
  | Ret r => Q (inr r) s
  | Raise e => Q (inl e) s
  | Get k => rgwp Rl G (k s) Q s
  | Modify f k => G s (f s) /\ rgwp Rl G k Q (f s)
  | Vis e k =>
      if suspends e then forall x s', Rl s s' -> rgwp Rl G (k x) Q s'
      else forall x, rgwp Rl G (k x) Q s
  end.

Definition stable {R : Type} (Rl : relation Store)
    (Q : Out R -> Store -> Prop) : Prop :=
  forall o s s', Q o s -> Rl s s' -> Q o s'.

(** The event log only grows at its end. *)
Definition appends (s s' : Store) : Prop :=
  events (thread s) `prefix_of` events (thread s').

(** The [Task] objects and the task list are left as they are. *)
Definition keeps_tasks (s s' : Store) : Prop :=
  objects s' = objects s /\ tasks (thread s') = tasks (thread s).

(** The [i]-th sub-task of the task at [ref]. *)
Definition slot (ref : TaskRef) (i : nat) (s : Store) : option SubTask :=
  t ← objects s !! ref; sub_tasks t !! i.

(** The updates that the pipeline engine makes to a sub-task: its
    status, latency and result. *)
Inductive dyn_update : (SubTask -> SubTask) -> Prop :=
| dyn_status v : dyn_update (set_st_status v)
| dyn_latency v : dyn_update (set_latency_ms v)
| dyn_result v : dyn_update (set_st_result v).

(** The updates that the pipeline engine makes to a task itself. *)
Inductive hdr_update : (Task -> Task) -> Prop :=
| hdr_status v : hdr_update (set_t_status v)
| hdr_latency v : hdr_update (set_t_total_latency_ms v).

(** The agent registered for each role. *)
Definition agent_of `{RT : Runtime} (r : AgentRole) : Agent :=
  match r with
  | ORCHESTRATOR => OrchestratorAgent
  | THINKER => ThinkerAgent
  | SPEED => SpeedAgent
  | RESEARCHER => ResearcherAgent
  | REASONER => ReasonerAgent
  end.

(** The steps of an agent: the log grows, the tasks stay. *)
Definition agent_step (s s' : Store) : Prop :=
  appends s s' /\ keeps_tasks s s'.

(** The events of both kinds of a pipeline run are in the log. *)
Definition pipeline_logged (s s' : Store) : Prop :=
  exists e1 mid e2,
    events (thread s') = events (thread s) ++ e1 :: mid ++ [e2]
    /\ event_type e1 = PIPELINE_START
    /\ event_type e2 = PIPELINE_COMPLETE.

(** No constraint on the steps. *)
Definition any_step (s s' : Store) : Prop := True.

(** The fields of a sub-task that are fixed at decomposition time. *)
Definition static (st : SubTask)
    : string * string * AgentRole * Z * list string * list string :=
  (st_id st, description st, assigned_agent st, priority st, depends_on st,
   skills st).

(** What a strategy leaves alone in a task: every field but the
    sub-task list, and of each sub-task its fixed fields. *)
Definition header (t : Task) :=
  (t_id t, user_input t, pipeline_type t, t_status t, final_result t,
   total_tokens t, t_total_latency_ms t, t_created_at t, completed_at t,
   map static (sub_tasks t)).

Definition keeps_header (ref : TaskRef) (s s' : Store) : Prop :=
  header <$> objects s' !! ref = header <$> objects s !! ref.

(** Rely of the branch of sub-task [i]: nobody else touches [i]. *)
Definition slot_kept (ref : TaskRef) (i : nat) (s s' : Store) : Prop :=
  slot ref i s' = slot ref i s.

(** Guarantee of the branch of sub-task [i]: it touches nothing but the
    status, latency and result of [i]. *)
Definition only_slot (ref : TaskRef) (i : nat) (s s' : Store) : Prop :=
  keeps_header ref s s' /\ forall j, j <> i -> slot ref j s' = slot ref j s.



(** *** Worlds that give a chosen first answer *)

(** An answer to any call. *)
Inductive Answer : Type :=
| AChat (r : Out ChatResponse)
| AText (r : Out string)
| ARow (r : Out Z)
| ANum (z : Z)
| AStr (s : string)
| ABool (b : bool).

Definition to_answer {X : Type} (e : IO X) : X -> Answer :=
  match e in IO T return T -> Answer with
  | ChatCompletion _ => AChat
  | Web_search _ _ | Web_fetch _ _ | Recall_memory _ _ _ | Find_skills _ _ =>
      AText
  | Save_memory _ _ _ _ => ARow
  | Monotonic | Now => ANum
  | Uuid4_hex => AStr
  | Sched => ABool
  end.

Definition of_answer {X : Type} (e : IO X) (a : Answer) : option X :=
  match e in IO T return option T with
  | ChatCompletion _ => match a with AChat r => Some r | _ => None end
  | Web_search _ _ | Web_fetch _ _ | Recall_memory _ _ _ | Find_skills _ _ =>
      match a with AText r => Some r | _ => None end
  | Save_memory _ _ _ _ => match a with ARow r => Some r | _ => None end
  | Monotonic | Now => match a with ANum z => Some z | _ => None end
  | Uuid4_hex => match a with AStr s => Some s | _ => None end
  | Sched => match a with ABool b => Some b | _ => None end
  end.

(** The world [W] preceded by one pending answer. *)
Definition primed (W : World) : World :=
  mkWorld (option Answer * wstate W)
    (fun X e st =>
       match st.1 ≫= of_answer e with
       | Some x => (x, (None, st.2))
       | None => let (x, w') := answer W X e st.2 in (x, (None, w'))
       end).

(** *** A concrete task *)

Definition example_subtasks : list SubTask :=
  [mkSubTask "st-a" "Check the arithmetic" REASONER 2 [] [] PENDING None 0 0;
   mkSubTask "st-b" "Answer briefly" SPEED 1 [] ["deep-research"] PENDING None
     0 0;
   mkSubTask "st-c" "Plan the answer" THINKER 2 [] [] PENDING None 0 0].

Definition example_task (p : PipelineType) : Task :=
  mkTask "task-0" "What is 2 + 2?" p example_subtasks PENDING None 0 0 0 None.

(** A store that holds [example_task p] at reference 0. *)
Definition example_store (p : PipelineType) : Store :=
  mkStore (mkThread "t0" [] [0%nat] ∅ 0) [example_task p].

Definition example_script : Script := mkScript 0 [] [].

(** ** Further specifications *)

From stdpp Require Import sorting.

Local Open Scope Z_scope.
Local Open Scope co_scope.

(** The steps of a strategy on the task at [ref]: the log grows, and of
    the task only the status, latency and result of sub-tasks change. *)
Definition strategy_step (ref : TaskRef) (s s' : Store) : Prop :=
  appends s s' /\ keeps_header ref s s'.

(** The two events that frame a run of the pipeline engine, the second
    one describing the task [task'] as the run leaves it. *)
Definition envelope_logged (task' : Task) (s s' : Store) : Prop :=
  exists e1 mid e2,
    events (thread s') = events (thread s) ++ e1 :: mid ++ [e2]
    /\ event_type e1 = PIPELINE_START
    /\ event_type e2 = PIPELINE_COMPLETE
    /\ content e2 =
         "Pipeline " +:+ PipelineType_value (pipeline_type task')
         +:+ " completed: " +:+ TaskStatus_value (t_status task')
    /\ metadata e2 = [("latency_ms", t_total_latency_ms task')].

(** How a failed run of the pipeline engine shows: the result is the
    text of the exception, logged as the last event before the
    completion event, and the latency of the task is the one it had
    before the run. *)
Definition failure_reported (task task' : Task) (result : string)
    (s' : Store) : Prop :=
  t_total_latency_ms task' = t_total_latency_ms task
  /\ (exists e, result = "[Pipeline Error] " +:+ exc_str e)
  /\ exists evs ev e2,
       events (thread s') = evs ++ [ev; e2]
       /\ event_type ev = ERROR /\ content ev = result.

(** The strategy that [PipelineEngine.execute] selects for a pipeline
    type. *)
Definition strategy_of `{RT : Runtime} (ref : TaskRef) (p : PipelineType)
    : Co string :=
  match p with
  | SEQUENTIAL => _sequential PipelineEngine_init ref
  | PARALLEL => _parallel PipelineEngine_init ref
  | CONSENSUS => _consensus PipelineEngine_init ref
  | ITERATIVE => _iterative PipelineEngine_init ref 3
  | AUTO => _sequential PipelineEngine_init ref
  end.

(** The fields of a task that a run of the pipeline engine leaves
    alone: all but the status, the latency and what the strategies
    record in the sub-tasks. *)
Definition fixed (t : Task) :=
  (t_id t, user_input t, pipeline_type t, final_result t, total_tokens t,
   t_created_at t, completed_at t, map static (sub_tasks t)).

(** What holds when a run of the pipeline engine on [task], started in
    store [s], ends with outcome [o] in store [s']. *)
Definition envelope_post (ref : TaskRef) (task : Task) (s : Store)
    (o : Out string) (s' : Store) : Prop :=
  exists result task',
    o = inr result
    /\ objects s' !! ref = Some task'
    /\ fixed task' = fixed task
    /\ envelope_logged task' s s'
    /\ (t_status task' = COMPLETED
        \/ t_status task' = FAILED /\ failure_reported task task' result s').



(** *** Calls to the model *)

Definition is_llm {X : Type} (e : IO X) : bool :=
  match e with
  | ChatCompletion _ => true
  | _ => false
  end.

(** On every path the coroutine calls the model at most [n] times. *)
Fixpoint llm_bound {R : Type} (c : Co R) (n : nat) {struct c} : Prop :=
  match c with
  | Ret _ | Raise _ => True
  | Get k => forall s, llm_bound (k s) n
  | Modify _ k => llm_bound k n
  | Vis e k =>
      if is_llm e then
        match n with
        | O => False
        | S n' => forall x, llm_bound (k x) n'
        end
      else forall x, llm_bound (k x) n
  end.

Section CallLLM.
Context `{RT : Runtime}.

(** The keyword arguments that [call_llm] passes to the client. *)
Definition chat_request (self : Agent) (messages : list Message)
    (tools : option (list string)) : ChatRequest :=
  mkChatRequest (cfg_id (cfg self)) messages (cfg_max_tokens (cfg self))
    (cfg_temperature (cfg self)) (cfg_top_p (cfg self))
    (if str_truthy (cfg_extra_body (cfg self))
     then cfg_extra_body (cfg self) else None)
    (if tools_offered tools then tools else None)
    (if tools_offered tools then Some "auto" else None).

(** The part of [call_llm] that follows the request: what it makes of
    the response. *)
Definition read_reply (tools : option (list string)) (latency : Z)
    (response : ChatResponse) : Co LLMResult :=
  match choices response with
  | [] => Raise (mkExn "IndexError" "list index out of range")
  | choice :: _ =>
      let msg := message choice in
      let thinking :=
        if str_truthy (msg_reasoning_content msg)
        then msg_reasoning_content msg else msg_thinking msg in
      let raw_content := default EmptyString (msg_content msg) in
      let clean_content := _strip_thinking_tags raw_content in
      let native :=
        map (fun tc => mkToolCall (ntc_id tc) (JString (ntc_name tc))
                         (JString (ntc_arguments tc)))
            (default [] (msg_tool_calls msg)) in
      found <-
        match native with
        | [] =>
            if tools_offered tools && negb (String.eqb raw_content EmptyString) then
              text_calls <- _parse_text_tool_calls raw_content ;;
              match text_calls with
              | Some calls =>
                  Ret (calls, str_strip (_TOOL_CALL_RE_sub clean_content))
              | None => Ret ([], clean_content)
              end
            else Ret ([], clean_content)
        | _ => Ret (native, clean_content)
        end ;;
      let tok f := match usage response with Some u => f u | None => 0 end in
      Ret (mkLLMResult found.2 found.1 (finish_reason choice)
             (tok prompt_tokens) (tok completion_tokens) (tok u_total_tokens)
             latency thinking)
  end.

(** The text of a reply and the tool calls of its structured field. *)
Definition raw_content_of (choice : Choice) : string :=
  default EmptyString (msg_content (message choice)).

Definition native_calls_of (choice : Choice) : list NativeToolCall :=
  default [] (msg_tool_calls (message choice)).

End CallLLM.

Section LoopBody.
Context `{RT : Runtime}.

(** The [except] branch of the loop of [execute]. *)
Definition after_failure (self : Agent) (e : Exn) : Co string :=
  let error_msg :=
    "LLM call failed: " +:+ exc_type e +:+ ": " +:+ exc_str e in
  add_event ERROR error_msg (Some (role self)) [] ;;
  update_metrics (role self) 0 0 false ;;
  Ret ("[Error] " +:+ error_msg).

(** The rest of an iteration of the loop of [execute] once [call_llm]
    has returned [result], with [remaining'] iterations to go after
    this one. *)
Definition after_reply (self : Agent) (tools : option (list string))
    (remaining' : nat) (step : Z) (messages : list Message)
    (result : LLMResult) : Co string :=
  (if str_truthy (r_thinking result) then
     add_event AGENT_THINKING
       (str_take 500 (default EmptyString (r_thinking result)))
       (Some (role self)) [] ;;
     Ret tt
   else Ret tt) ;;
  match r_tool_calls result with
  | [] =>
      let text := r_content result in
      add_event AGENT_RESPONSE text (Some (role self))
        [("tokens", r_tokens_total result);
         ("latency_ms", r_latency_ms result);
         ("step", step)] ;;
      update_metrics (role self) (r_tokens_total result)
        (r_latency_ms result) true ;;
      Ret text
  | calls =>
      messages' <- fold_co calls messages (dispatch_tool_call self) ;;
      execute_loop self tools remaining' (step + 1) messages'
  end.

End LoopBody.

(** What [Thread.update_metrics] does to the table of metrics, [now]
    being the time of the update. *)
Definition record_metrics (key : string) (tokens latency : Z) (success : bool)
    (now : Z) (ms : gmap string AgentMetrics) : gmap string AgentMetrics :=
  alter (set_last_active now) key
    (alter (bump_metrics tokens latency success) key
       (match ms !! key with
        | None => <[key := AgentMetrics_init]> ms
        | Some _ => ms
        end)).

(** [usage.total_tokens if usage else 0] *)
Definition total_tokens_of (response : ChatResponse) : Z :=
  match usage response with
  | Some u => u_total_tokens u
  | None => 0
  end.

(** A script whose only reply requests a web search with an argument
    string that is not JSON. *)
Definition malformed_call_script : Script :=
  mkScript 0
    [reply EmptyString [mkNativeToolCall "call_1" "web_search" "{query: rocq"]]
    [].

(** A script whose only reply is a plain answer. *)
Definition plain_answer_script : Script :=
  mkScript 0 [reply "<think>easy</think> 2 + 2 = 4 " []] [].

(** *** The order of the sequential strategy *)

(** The priority of the sub-task at position [i]. *)
Definition priority_at (sts : list SubTask) (i : nat) : Z :=
  match sts !! i with
  | Some st => priority st
  | None => 0
  end.

(** Position [a] comes before position [b]: lower priority value first
    and, among equal priorities, the order of declaration. *)
Definition runs_before (sts : list SubTask) (a b : nat) : Prop :=
  priority_at sts a < priority_at sts b
  \/ (priority_at sts a = priority_at sts b /\ (a < b)%nat).

Section SequentialSpec.
Context `{RT : Runtime}.

(** The sequential strategy in the words of its description: the
    sub-tasks at the positions [order] run one after the other; each
    receives the original request, the result of the one before it
    ([previous], for the first one the request itself) and its own
    description; the result is the join of the labeled results. *)
Fixpoint sequential_from (ref : TaskRef) (request : string)
    (order : list nat) (previous : string) (labeled : list string)
    : Co string :=
  match order with
  | [] => Ret (str_join separator labeled)
  | i :: order' =>
      subtask <- get_subtask ref i ;;
      result <- _run_subtask PipelineEngine_init ref i
                  (sequential_prompt request previous (description subtask)) ;;
      sequential_from ref request order' result
        (labeled ++ [labeled_entry (assigned_agent subtask) (inr result)])
  end.

End SequentialSpec.

(** * Properties *)

Local Open Scope co_scope.
Arguments par : simpl never.
Arguments add_event : simpl never.
Arguments update_metrics : simpl never.
Arguments call_llm : simpl never.
Arguments dispatch_tool_call : simpl never.
Arguments execute : simpl never.
Arguments get_task : simpl never.
Arguments get_subtask : simpl never.
Arguments get_agent : simpl never.
Arguments attempt : simpl never.
Arguments _uid : simpl never.
Arguments _run_subtask : simpl never.
Arguments _parse_text_tool_calls : simpl never.
Arguments gather : simpl never.
Arguments str_join : simpl never.

(** ** Running coroutines *)

Section RunLemmas.
Context (W : World).

Lemma run_bind {A B : Type} (c : Co A) (f : A -> Co B) w s :
  run W (bind c f) w s =
    match run W c w s with
    | (inr a, w', s') => run W (f a) w' s'
    | (inl e, w', s') => (inl e, w', s')
    end.
Proof.
  revert w s. induction c as [a|e|k IH|g k IH|X e k IH]; intros w s; simpl; auto.
  destruct (answer W X e w) as [x w']. apply IH.
Qed.

Lemma run_try_except {A : Type} (c : Co A) (h : Exn -> Co A) w s :
  run W (try_except c h) w s =
    match run W c w s with
    | (inr a, w', s') => (inr a, w', s')
    | (inl e, w', s') => run W (h e) w' s'
    end.
Proof.
  revert w s. induction c as [a|e|k IH|g k IH|X e k IH]; intros w s; simpl; auto.
  destruct (answer W X e w) as [x w']. apply IH.
Qed.

Lemma run_attempt {A : Type} (c : Co A) w s :
  run W (attempt c) w s =
    let '(o, w', s') := run W c w s in (inr o, w', s').
Proof.
  unfold attempt. rewrite run_try_except, run_bind.
  destruct (run W c w s) as [[[e|a] w'] s']; reflexivity.
Qed.

Lemma llm_replies_bind {A B : Type} (c : Co A) (f : A -> Co B) w s :
  llm_replies W (bind c f) w s =
    llm_replies W c w s ++
    match run W c w s with
    | (inr a, w', s') => llm_replies W (f a) w' s'
    | (inl e, w', s') => []
    end.
Proof.
  revert w s. induction c as [a|e|k IH|g k IH|X e k IH]; intros w s; simpl; auto.
  destruct (answer W X e w) as [x w']. rewrite IH.
  destruct (llm_reply e x); reflexivity.
Qed.

Lemma llm_replies_try_except {A : Type} (c : Co A) (h : Exn -> Co A) w s :
  llm_replies W (try_except c h) w s =
    llm_replies W c w s ++
    match run W c w s with
    | (inr a, w', s') => []
    | (inl e, w', s') => llm_replies W (h e) w' s'
    end.
Proof.
  revert w s. induction c as [a|e|k IH|g k IH|X e k IH]; intros w s; simpl; auto.
  destruct (answer W X e w) as [x w']. rewrite IH.
  destruct (llm_reply e x); reflexivity.
Qed.

Lemma no_llm_replies {A : Type} (c : Co A) w s :
  no_llm c -> llm_replies W c w s = [].
Proof.
  revert w s. induction c as [a|e|k IH|g k IH|X e k IH]; intros w s H; simpl; auto.
  destruct H as [He Hk]. destruct (answer W X e w) as [x w'].
  destruct e; simpl; try done; by apply IH.
Qed.

End RunLemmas.

(** ** Guarantees *)

Lemma guar_bind G {A B : Type} (c : Co A) (f : A -> Co B) :
  guar G c -> (forall a, guar G (f a)) -> guar G (bind c f).
Proof.
  intros Hc Hf. induction c as [a|e|k IH|g k IH|X e k IH]; simpl in *; auto.
  destruct Hc. auto.
Qed.

Lemma guar_try_except G {A : Type} (c : Co A) (h : Exn -> Co A) :
  guar G c -> (forall e, guar G (h e)) -> guar G (try_except c h).
Proof.
  intros Hc Hh. induction c as [a|e|k IH|g k IH|X e k IH]; simpl in *; auto.
  destruct Hc. auto.
Qed.

Lemma guar_mono (G G' : relation Store) {A : Type} (c : Co A) :
  (forall s s', G s s' -> G' s s') -> guar G c -> guar G' c.
Proof.
  intros HG. induction c as [a|e|k IH|g k IH|X e k IH]; simpl; auto.
  intros [H1 H2]. auto.
Qed.

Lemma guar_lift G {A : Type} (o : Out A) : guar G (lift o).
Proof. by destruct o. Qed.

Lemma guar_fold_co G {A B : Type} (l : list A) (acc : B) (body : B -> A -> Co B) :
  (forall b a, guar G (body b a)) -> guar G (fold_co l acc body).
Proof.
  intros Hb. revert acc. induction l as [|x l IH]; intros acc; simpl; [done|].
  apply guar_bind; auto.
Qed.

Lemma no_llm_bind {A B : Type} (c : Co A) (f : A -> Co B) :
  no_llm c -> (forall a, no_llm (f a)) -> no_llm (bind c f).
Proof.
  intros Hc Hf. induction c as [a|e|k IH|g k IH|X e k IH]; simpl in *; auto.
  destruct Hc. auto.
Qed.

Lemma no_llm_lift {A : Type} (o : Out A) : no_llm (lift o).
Proof. by destruct o. Qed.

(** ** Rely-guarantee reasoning *)

Section RelyGuarantee.
Context (Rl G : relation Store).

Lemma rgwp_mono' {A : Type} (c : Co A) (Q Q' : Out A -> Store -> Prop) s :
  (forall o s', Q o s' -> Q' o s') -> rgwp Rl G c Q s -> rgwp Rl G c Q' s.
Proof.
  intros HQ. revert s.
  induction c as [a|e|k IH|g k IH|X e k IH]; intros s; simpl; auto.
  - intros [H1 H2]. auto.
  - destruct (suspends e); eauto.
Qed.

Lemma rgwp_bind {A B : Type} (c : Co A) (f : A -> Co B)
    (Q : Out B -> Store -> Prop) s :
  rgwp Rl G c (fun o s' =>
                 match o with
                 | inr a => rgwp Rl G (f a) Q s'
                 | inl e => Q (inl e) s'
                 end) s ->
  rgwp Rl G (bind c f) Q s.
Proof.
  revert s. induction c as [a|e|k IH|g k IH|X e k IH]; intros s; simpl; auto.
  - intros [H1 H2]. auto.
  - destruct (suspends e); eauto.
Qed.

Lemma rgwp_try_except {A : Type} (c : Co A) (h : Exn -> Co A)
    (Q : Out A -> Store -> Prop) s :
  rgwp Rl G c (fun o s' =>
                 match o with
                 | inr a => Q (inr a) s'
                 | inl e => rgwp Rl G (h e) Q s'
                 end) s ->
  rgwp Rl G (try_except c h) Q s.
Proof.
  revert s. induction c as [a|e|k IH|g k IH|X e k IH]; intros s; simpl; auto.
  - intros [H1 H2]. auto.
  - destruct (suspends e); eauto.
Qed.

(** A coroutine whose updates are all [G]-steps meets the trivial
    specification under any interference. *)
Lemma guar_rgwp {A : Type} (c : Co A) s :
  guar G c -> rgwp Rl G c (fun _ _ => True) s.
Proof.
  revert s. induction c as [a|e|k IH|g k IH|X e k IH]; intros s; simpl; auto.
  - intros [H1 H2]. auto.
  - destruct (suspends e); eauto.
Qed.

(** An assertion kept by the steps of the coroutine and of the others
    holds at the end if it holds at the start. *)
Lemma rgwp_invariant {A : Type} (I : Store -> Prop) (c : Co A)
    (Q : Out A -> Store -> Prop) s :
  (forall s s', I s -> Rl s s' -> I s') ->
  (forall s s', I s -> G s s' -> I s') ->
  I s -> rgwp Rl G c Q s -> rgwp Rl G c (fun o s' => Q o s' /\ I s') s.
Proof.
  intros HR HG. revert s.
  induction c as [a|e|k IH|g k IH|X e k IH]; intros s Hi; simpl; auto.
  - intros [H1 H2]. eauto.
  - destruct (suspends e); eauto.
Qed.

(** Running alone is a special case of running among others. *)
Lemma rgwp_run (W : World) {A : Type} (c : Co A)
    (Q : Out A -> Store -> Prop) w s :
  Reflexive Rl ->
  rgwp Rl G c Q s ->
  let '(o, _, s') := run W c w s in Q o s'.
Proof.
  intros Hrefl. revert w s.
  induction c as [a|e|k IH|g k IH|X e k IH]; intros w s; simpl.
  - done.
  - done.
  - apply IH.
  - intros [H1 H2]. by apply IH.
  - destruct (answer W X e w) as [x w']. intros H. apply IH.
    destruct (suspends e); auto.
Qed.

End RelyGuarantee.

Lemma rgwp_weaken (Rl Rl' G G' : relation Store) {A : Type} (c : Co A)
    (Q : Out A -> Store -> Prop) s :
  (forall s s', Rl' s s' -> Rl s s') ->
  (forall s s', G s s' -> G' s s') ->
  rgwp Rl G c Q s -> rgwp Rl' G' c Q s.
Proof.
  intros HR HG. revert s.
  induction c as [a|e|k IH|g k IH|X e k IH]; intros s; simpl; auto.
  - intros [H1 H2]. auto.
  - destruct (suspends e); eauto.
Qed.

Lemma par_unfold {A B : Type} (c1 : Co A) (c2 : Co B) :
  par c1 c2 =
    let finish (o1 : Out A) : Co (Out A * Out B) :=
      match c2 with
      | Ret b => Ret (o1, inr b)
      | Raise e => Ret (o1, inl e)
      | Get k => Get (fun s => par c1 (k s))
      | Modify f k => Modify f (par c1 k)
      | Vis e2 k2 => Vis e2 (fun y => par c1 (k2 y))
      end in
    match c1 with
    | Ret a => finish (inr a)
    | Raise e => finish (inl e)
    | Get k => Get (fun s => par (k s) c2)
    | Modify f k => Modify f (par k c2)
    | Vis e1 k1 =>
        if suspends e1 then
          match c2 with
          | Ret _ | Raise _ => Vis e1 (fun x => par (k1 x) c2)
          | Get k => Get (fun s => par c1 (k s))
          | Modify f k => Modify f (par c1 k)
          | Vis e2 k2 =>
              if suspends e2 then
                b <- io Sched ;;
                if b : bool then Vis e1 (fun x => par (k1 x) c2)
                else Vis e2 (fun y => par c1 (k2 y))
              else Vis e2 (fun y => par c1 (k2 y))
          end
        else Vis e1 (fun x => par (k1 x) c2)
    end.
Proof. destruct c1; destruct c2; reflexivity. Qed.

(** The parallel rule: two branches that tolerate each other's steps
    can be run together, and both postconditions hold at the end. *)
Section ParRule.
Context {A B : Type}.
Context (R1 G1 R2 G2 : relation Store).
Context (Q1 : Out A -> Store -> Prop) (Q2 : Out B -> Store -> Prop).
Context `{!PreOrder R1, !PreOrder R2}.
Hypothesis G1R2 : forall s s', G1 s s' -> R2 s s'.
Hypothesis G2R1 : forall s s', G2 s s' -> R1 s s'.
Hypothesis St1 : stable R1 Q1.
Hypothesis St2 : stable R2 Q2.

Definition par_post (o : Out (Out A * Out B)) (s : Store) : Prop :=
  match o with
  | inr (o1, o2) => Q1 o1 s /\ Q2 o2 s
  | inl _ => False
  end.

Lemma par_rule_finish (o1 : Out A) (c1 : Co A) (c2 : Co B) s :
  match c1 with Ret a => o1 = inr a | Raise e => o1 = inl e | _ => False end ->
  Q1 o1 s -> rgwp R2 G2 c2 Q2 s ->
  rgwp (fun s s' => R1 s s' /\ R2 s s') (fun s s' => G1 s s' \/ G2 s s')
    (par c1 c2) par_post s.
Proof.
  intros Hc1. revert s.
  induction c2 as [b|e|k IH2|f k IH2|Y e2 k2 IH2]; intros s H1 Hc2;
    rewrite par_unfold; destruct c1; try done; subst o1; simpl in *;
    try done; try (by apply IH2).
  - destruct Hc2 as [Hg Hc2]. split; [by right|]. apply IH2; [|done].
    eapply St1; [exact H1|]. by apply G2R1.
  - destruct Hc2 as [Hg Hc2]. split; [by right|]. apply IH2; [|done].
    eapply St1; [exact H1|]. by apply G2R1.
  - destruct (suspends e2).
    + intros y s' [Hr1 Hr2]. apply IH2; [by eapply St1|]. by apply Hc2.
    + intros y. apply IH2; [done|]. apply Hc2.
  - destruct (suspends e2).
    + intros y s' [Hr1 Hr2]. apply IH2; [by eapply St1|]. by apply Hc2.
    + intros y. apply IH2; [done|]. apply Hc2.
Qed.

Lemma par_rule (c1 : Co A) (c2 : Co B) s :
  rgwp R1 G1 c1 Q1 s ->
  (forall s', R2 s s' -> rgwp R2 G2 c2 Q2 s') ->
  rgwp (fun s s' => R1 s s' /\ R2 s s') (fun s s' => G1 s s' \/ G2 s s')
    (par c1 c2) par_post s.
Proof.
  revert c2 s.
  induction c1 as [a|e|k IH|f k IH|X e1 k1 IH]; intros c2 s H1 H2.
  - eapply (par_rule_finish (inr a)); [done|done|]. apply H2. reflexivity.
  - eapply (par_rule_finish (inl e)); [done|done|]. apply H2. reflexivity.
  - rewrite par_unfold. simpl in *. by apply IH.
  - destruct H1 as [Hg H1]. rewrite par_unfold. simpl. split; [by left|].
    apply IH; [done|]. intros s' Hr. apply H2. etrans; [|done]. by apply G1R2.
  - simpl in H1. destruct (suspends e1) eqn:Hs1.
    2:{ rewrite par_unfold. simpl. rewrite Hs1. simpl. rewrite Hs1.
        intros x. by apply IH. }
    assert (Hc2 : rgwp R2 G2 c2 Q2 s) by (apply H2; reflexivity).
    clear H2. revert s H1 Hc2.
    induction c2 as [b|e'|k IH2|f k IH2|Y e2 k2 IH2]; intros s H1 Hc2;
      rewrite par_unfold; simpl; rewrite Hs1; simpl in *.
    + rewrite Hs1. intros x s' [Hr1 Hr2]. apply IH; [by apply H1|].
      intros s'' Hr. simpl. eapply St2; [|done]. by eapply St2.
    + rewrite Hs1. intros x s' [Hr1 Hr2]. apply IH; [by apply H1|].
      intros s'' Hr. simpl. eapply St2; [|done]. by eapply St2.
    + apply IH2; done.
    + destruct Hc2 as [Hg Hc2]. split; [by right|]. apply IH2; [|done].
      intros x s' Hr. apply H1. etrans; [|done]. by apply G2R1.
    + destruct (suspends e2) eqn:Hs2; simpl.
      * intros b s' [Hr1 Hr2]. destruct b; simpl.
        -- rewrite Hs1. intros x s'' [Hr1' Hr2']. apply IH.
           ++ apply H1. by etrans.
           ++ intros s3 Hr3. simpl. rewrite Hs2. intros y s4 Hr4.
              apply Hc2. etrans; [done|]. etrans; [done|]. by etrans.
        -- rewrite Hs2. intros y s'' [Hr1' Hr2']. apply IH2.
           ++ intros x s3 Hr3. apply H1. etrans; [done|]. by etrans.
           ++ apply Hc2. by etrans.
      * rewrite Hs2. intros y. apply IH2; [done|]. apply Hc2.
Qed.

End ParRule.

Lemma guar_par G {A B : Type} (c1 : Co A) (c2 : Co B) :
  guar G c1 -> guar G c2 -> guar G (par c1 c2).
Proof.
  revert c2. induction c1 as [a|e|k IH|f k IH|X e1 k1 IH]; intros c2 H1 H2.
  - induction c2 as [b|e|k IH2|f k IH2|Y e2 k2 IH2];
      rewrite par_unfold; simpl in *; auto. destruct H2; auto.
  - induction c2 as [b|e'|k IH2|f k IH2|Y e2 k2 IH2];
      rewrite par_unfold; simpl in *; auto. destruct H2; auto.
  - rewrite par_unfold. simpl in *. auto.
  - rewrite par_unfold. simpl in *. destruct H1. auto.
  - simpl in H1.
    induction c2 as [b|e'|k IH2|f k IH2|Y e2 k2 IH2];
      rewrite par_unfold; simpl in *; destruct (suspends e1); simpl; auto.
    + destruct H2; auto.
    + destruct (suspends e2); simpl; auto. intros []; simpl; auto.
Qed.

Lemma guar_gather G {A : Type} (cs : list (Co A)) :
  Forall (guar G) cs -> guar G (gather cs).
Proof.
  induction 1 as [|c cs Hc Hcs IH]; simpl; [done|].
  apply guar_bind; [by apply guar_par|]. intros [o [e|l]]; done.
Qed.

Lemma guar_run (W : World) G `{!PreOrder G} {A : Type} (c : Co A) w s :
  guar G c -> G s (run W c w s).2.
Proof.
  revert w s. induction c as [a|e|k IH|f k IH|X e k IH]; intros w s H; simpl.
  - reflexivity.
  - reflexivity.
  - apply IH, H.
  - destruct H as [H1 H2]. etrans; [apply H1|]. by apply IH.
  - destruct (answer W X e w) as [x w']. apply IH, H.
Qed.

(** The rule for [gather]: branch [k] of the list is branch [n + k] of
    the family of specifications. *)
Section GatherRule.
Context {A : Type}.
Context (Rk Gk : nat -> relation Store) (Qk : nat -> Out A -> Store -> Prop).
Context (Rk_pre : forall i, PreOrder (Rk i)).
Hypothesis Gk_Rk : forall i j s s', i <> j -> Gk i s s' -> Rk j s s'.
Hypothesis Qk_stable : forall i, stable (Rk i) (Qk i).

Definition rely_from (n len : nat) : relation Store :=
  fun s s' => forall k, (k < len)%nat -> Rk (n + k) s s'.

Definition guar_from (n len : nat) : relation Store :=
  fun s s' => exists k, (k < len)%nat /\ Gk (n + k) s s'.

Definition gather_post (n len : nat) (o : Out (list (Out A))) (s : Store)
    : Prop :=
  match o with
  | inr outs =>
      length outs = len /\
      forall k o', outs !! k = Some o' -> Qk (n + k) o' s
  | inl _ => False
  end.

#[local] Instance rely_from_pre n len : PreOrder (rely_from n len).
Proof.
  split.
  - intros s k _. reflexivity.
  - intros s1 s2 s3 H1 H2 k Hk. etrans; [by apply H1|by apply H2].
Qed.

Lemma gather_post_stable n len : stable (rely_from n len) (gather_post n len).
Proof.
  intros [e|outs] s s'; simpl; [done|]. intros [Hlen H] Hr. split; [done|].
  intros k o' Hk. eapply Qk_stable; [by apply H|]. apply Hr.
  rewrite <- Hlen. by eapply lookup_lt_Some.
Qed.

Lemma gather_rule (cs : list (Co A)) : forall n s,
  (forall k c, cs !! k = Some c ->
     forall s', Rk (n + k) s s' -> rgwp (Rk (n + k)) (Gk (n + k)) c (Qk (n + k)) s') ->
  rgwp (rely_from n (length cs)) (guar_from n (length cs)) (gather cs)
    (gather_post n (length cs)) s.
Proof.
  induction cs as [|c cs IH]; intros n s Hcs; simpl.
  - split; [done|]. intros k o'. by rewrite lookup_nil.
  - apply rgwp_bind.
    eapply rgwp_mono'; cycle 1.
    + eapply rgwp_weaken; cycle 2.
      * eapply (par_rule (Rk n) (Gk n) (rely_from (S n) (length cs))
                  (guar_from (S n) (length cs)) (Qk n)
                  (gather_post (S n) (length cs))).
        -- intros s1 s2 Hg k Hk. eapply Gk_Rk; [|done]. lia.
        -- intros s1 s2 (k & Hk & Hg). eapply Gk_Rk; [|done]. lia.
        -- apply Qk_stable.
        -- apply gather_post_stable.
        -- specialize (Hcs 0%nat c eq_refl s). rewrite Nat.add_0_r in Hcs.
           apply Hcs. reflexivity.
        -- intros s' Hr. apply IH. intros k c' Hk s'' Hr'.
           specialize (Hcs (S k) c' Hk s'').
           replace (n + S k)%nat with (S n + k)%nat in Hcs by lia.
           apply Hcs. etrans; [|done]. apply Hr. by eapply lookup_lt_Some.
      * intros s1 s2 Hr. split.
        -- specialize (Hr 0%nat). rewrite Nat.add_0_r in Hr. apply Hr. simpl. lia.
        -- intros k Hk. specialize (Hr (S k)).
           replace (n + S k)%nat with (S n + k)%nat in Hr by lia.
           apply Hr. simpl. lia.
      * intros s1 s2 [Hg|(k & Hk & Hg)].
        -- exists 0%nat. rewrite Nat.add_0_r. split; [simpl; lia|done].
        -- exists (S k). replace (n + S k)%nat with (S n + k)%nat by lia.
           split; [simpl; lia|done].
    + intros [e|[o1 [e|outs]]] s'; simpl; try done; try tauto.
      intros [H1 [Hlen H2]]. split; [by rewrite Hlen|].
      intros [|k] o'; simpl.
      * intros [= <-]. by rewrite Nat.add_0_r.
      * intros Hk. replace (n + S k)%nat with (S n + k)%nat by lia. by apply H2.
Qed.

End GatherRule.


(** ** Frame properties of the program *)

#[global] Instance appends_pre : PreOrder appends.
Proof.
  split.
  - intros s. unfold appends. reflexivity.
  - intros s1 s2 s3. unfold appends. apply transitivity.
Qed.

#[global] Instance keeps_tasks_pre : PreOrder keeps_tasks.
Proof.
  split.
  - by intros s.
  - intros s1 s2 s3 [H1 H2] [H3 H4]. split; congruence.
Qed.

(** A relation that admits the two ways in which an agent changes the
    thread: appending an event and updating the metrics. *)
Class LogSteps (G : relation Store) : Prop := {
  log_event : forall s ev, G s (set_events (fun evs => evs ++ [ev]) s);
  log_metrics : forall s f, G s (set_agent_metrics f s);
}.

#[global] Instance appends_log : LogSteps appends.
Proof.
  split; intros s ?; unfold appends; simpl.
  - by apply prefix_app_r.
  - reflexivity.
Qed.

#[global] Instance keeps_tasks_log : LogSteps keeps_tasks.
Proof. split; intros s ?; by split. Qed.

Create HintDb guar_db.

Ltac guar_hook := fail.

Ltac guar_auto :=
  repeat first
    [ progress intros
    | progress cbv beta
    | exact I
    | guar_hook
    | solve [eauto 2 with guar_db nocore]
    | apply guar_lift
    | match goal with
      | |- guar _ (bind (get_agent ?e ?r) _) =>
          unfold get_agent at 1; destruct (_agents e r) eqn:?; cbn [bind]
      end
    | apply guar_bind
    | apply guar_try_except
    | apply guar_fold_co
    | match goal with
      | |- guar _ (match ?x with _ => _ end) => destruct x
      | |- guar _ (if ?x then _ else _) => destruct x
      | |- guar _ (io _) => by intros ?
      | |- guar _ (modify _) => split; [intros ?|exact I]
      | |- guar _ (Ret _) => exact I
      | |- guar _ (Raise _) => exact I
      | |- guar _ get_store => by intros ?
      end ].

Section Frames.
Context `{RT : Runtime}.
Context (G : relation Store).

Lemma guar_uid : guar G _uid.
Proof. unfold _uid. guar_auto. Qed.
#[local] Hint Resolve guar_uid : guar_db.

Lemma guar_parse_text_tool_calls text : guar G (_parse_text_tool_calls text).
Proof.
  unfold _parse_text_tool_calls, try_except_types, parse_block. guar_auto.
Qed.
#[local] Hint Resolve guar_parse_text_tool_calls : guar_db.

Lemma guar_call_llm a messages tools : guar G (call_llm a messages tools).
Proof.
  unfold call_llm. guar_auto; try apply guar_parse_text_tool_calls; guar_auto.
Qed.
#[local] Hint Resolve guar_call_llm : guar_db.

Lemma guar_base_handle_tool_call r custom fn_name fn_args :
  (forall n x, guar G (custom n x)) ->
  guar G (BaseAgent_handle_tool_call r custom fn_name fn_args).
Proof. intros Hc. unfold BaseAgent_handle_tool_call. guar_auto; apply Hc. Qed.
#[local] Hint Resolve guar_base_handle_tool_call : guar_db.

Lemma guar_get_task ref : guar G (get_task ref).
Proof. unfold get_task. guar_auto. Qed.
#[local] Hint Resolve guar_get_task : guar_db.

Lemma guar_get_subtask ref i : guar G (get_subtask ref i).
Proof. unfold get_subtask. guar_auto. Qed.
#[local] Hint Resolve guar_get_subtask : guar_db.

Lemma guar_get_agent e r : guar G (get_agent e r).
Proof. unfold get_agent. guar_auto. Qed.

Context `{!LogSteps G}.

Lemma guar_add_event ty text r meta : guar G (add_event ty text r meta).
Proof.
  unfold add_event, modify. guar_auto; try apply guar_uid.
  simpl. split; [|done]. intros s. apply log_event.
Qed.
#[local] Hint Resolve guar_add_event : guar_db.

Lemma guar_update_metrics r tokens latency success :
  guar G (update_metrics r tokens latency success).
Proof.
  unfold update_metrics, modify. simpl.
  repeat split; intros; apply log_metrics.
Qed.
#[local] Hint Resolve guar_update_metrics : guar_db.

Lemma guar_dispatch_tool_call a messages tc :
  (forall n x, guar G (handle_tool_call a n x)) ->
  guar G (dispatch_tool_call a messages tc).
Proof.
  intros Hh. unfold dispatch_tool_call. guar_auto.
Qed.
#[local] Hint Resolve guar_dispatch_tool_call : guar_db.

Lemma guar_execute_loop a tools remaining step messages :
  (forall n x, guar G (handle_tool_call a n x)) ->
  guar G (execute_loop a tools remaining step messages).
Proof.
  intros Hh. revert step messages.
  induction remaining as [|n IH]; intros step messages; cbn [execute_loop].
  - guar_auto.
  - unfold attempt. guar_auto.
Qed.
#[local] Hint Resolve guar_execute_loop : guar_db.

Lemma guar_execute a task_input :
  (forall n x, guar G (handle_tool_call a n x)) ->
  guar G (execute a task_input).
Proof.
  intros Hh. unfold execute. guar_auto.
Qed.

End Frames.

#[global] Hint Resolve guar_uid guar_parse_text_tool_calls guar_call_llm
  guar_base_handle_tool_call guar_get_task guar_get_subtask
  guar_add_event guar_update_metrics guar_dispatch_tool_call
  guar_execute_loop guar_execute : guar_db.

Ltac guar_hook ::=
  match goal with
  | |- guar _ (execute _ _) => apply guar_execute; solve [eauto]
  end.

(** A relation that admits every step of the pipeline engine on the
    task at [ref]. *)
Class EngineSteps (ref : TaskRef) (G : relation Store) : Prop := {
  engine_log :: LogSteps G;
  engine_subtask : forall s i f, dyn_update f -> G s (update_subtask ref i f s);
  engine_task : forall s f, hdr_update f -> G s (update_task ref f s);
}.

#[global] Instance appends_engine ref : EngineSteps ref appends.
Proof. split; [apply _| |]; intros; unfold appends; reflexivity. Qed.

Section EngineFrames.
Context `{RT : Runtime}.
Context (G : relation Store) `{!LogSteps G}.
Context (self : PipelineEngine).
Hypothesis agents_ok :
  forall r a, _agents self r = Some a -> forall n x, guar G (handle_tool_call a n x).

Lemma guar_run_subtask ref i ctx :
  (forall s f, dyn_update f -> G s (update_subtask ref i f s)) ->
  guar G (_run_subtask self ref i ctx).
Proof.
  intros Hs. unfold _run_subtask. guar_auto; apply Hs; constructor.
Qed.

Lemma guar_consensus ref : guar G (_consensus self ref).
Proof.
  unfold _consensus. apply guar_bind; [guar_auto|]. intros task.
  assert (Hc : forall roles acc,
             Forall (guar G) acc ->
             guar G (coros <- fold_co roles acc (fun coros r =>
                        agent <- get_agent self r ;;
                        Ret (coros ++ [execute agent (user_input task)])) ;;
                     results <- gather coros ;;
                     Ret (str_join separator
                            (consensus_header
                             :: map (fun rr => labeled_entry rr.1 rr.2)
                                  (zip agents_to_use results))))).
  { induction roles as [|r roles IH]; intros acc Hacc; cbn [fold_co bind].
    - apply guar_bind; [by apply guar_gather|done].
    - unfold get_agent. destruct (_agents self r) as [a|] eqn:Ha; cbn [bind]; [|done].
      apply IH. apply Forall_app. split; [done|]. constructor; [|done].
      apply guar_execute; eauto. }
  by apply Hc.
Qed.

Ltac guar_hook ::=
  match goal with
  | |- guar _ (execute _ _) => apply guar_execute; solve [eauto]
  | |- guar _ (_run_subtask _ _ _ _) =>
      apply guar_run_subtask; intros; by apply engine_subtask
  end.

Context (ref : TaskRef) `{!EngineSteps ref G}.

Lemma guar_sequential : guar G (_sequential self ref).
Proof. unfold _sequential. guar_auto. Qed.

Lemma guar_parallel : guar G (_parallel self ref).
Proof.
  unfold _parallel. guar_auto.
  - apply guar_gather. apply Forall_lookup. intros i c Hc.
    apply list_lookup_imap_Some in Hc as (st & _ & ->).
    apply guar_run_subtask. intros. by apply engine_subtask.
  - apply engine_subtask. constructor.
Qed.

Lemma guar_iterative_rounds producer reviewer rounds round_num draft review :
  (forall n x, guar G (handle_tool_call producer n x)) ->
  (forall n x, guar G (handle_tool_call reviewer n x)) ->
  guar G (iterative_rounds ref producer reviewer rounds round_num draft review).
Proof.
  intros Hp Hr. revert round_num draft review.
  induction rounds as [|n IH]; intros round_num draft review;
    cbn [iterative_rounds]; guar_auto.
Qed.

Lemma guar_iterative max_rounds : guar G (_iterative self ref max_rounds).
Proof.
  unfold _iterative. guar_auto; try apply guar_sequential;
    try (apply engine_subtask; constructor).
  apply guar_iterative_rounds; intros; eapply agents_ok; eassumption.
Qed.

Ltac guar_hook ::=
  match goal with
  | |- guar _ (execute _ _) => apply guar_execute; solve [eauto]
  | |- guar _ (_run_subtask _ _ _ _) =>
      apply guar_run_subtask; intros; by apply engine_subtask
  | |- guar _ (_sequential _ _) => by apply guar_sequential
  | |- guar _ (_parallel _ _) => by apply guar_parallel
  | |- guar _ (_consensus _ _) => by apply guar_consensus
  | |- guar _ (_iterative _ _ _) => by apply guar_iterative
  end.

Lemma guar_PipelineEngine_execute : guar G (PipelineEngine_execute self ref).
Proof.
  unfold PipelineEngine_execute, attempt. guar_auto;
    apply engine_task; constructor.
Qed.

End EngineFrames.

(** The handlers of the four specialists never touch the store. *)
Lemma specialists_ok `{RT : Runtime} G r a :
  _agents PipelineEngine_init r = Some a ->
  forall n x, guar G (handle_tool_call a n x).
Proof.
  destruct r; simpl; intros [= <-] n x; simpl;
    apply guar_base_handle_tool_call; intros; exact I.
Qed.


Ltac guar_hook ::=
  match goal with
  | |- guar _ (add_event _ _ _ _) => apply guar_add_event; apply _
  | |- guar _ (update_metrics _ _ _ _) => apply guar_update_metrics; apply _
  | |- guar _ (execute _ _) => apply guar_execute; [apply _|solve [eauto]]
  end.

Section OrchestratorFrames.
Context `{RT : Runtime}.

Lemma guar_appends_orchestrator_tools n x :
  guar appends (OrchestratorAgent_handle_tool_call n x).
Proof.
  unfold OrchestratorAgent_handle_tool_call, _handle_decompose, make_subtask.
  guar_auto; try (unfold appends; simpl; reflexivity).
  apply guar_base_handle_tool_call. intros. exact I.
Qed.

Lemma guar_appends_agent_of r n x :
  guar appends (handle_tool_call (agent_of r) n x).
Proof.
  destruct r; simpl;
    first [apply guar_appends_orchestrator_tools
          |apply guar_base_handle_tool_call; intros; exact I].
Qed.

Lemma guar_appends_route request : guar appends (route_and_execute request).
Proof.
  assert (He : forall inp, guar appends (execute OrchestratorAgent inp)).
  { intros inp. apply guar_execute; [apply _|].
    apply guar_appends_orchestrator_tools. }
  unfold route_and_execute.
  apply guar_bind; [guar_auto|]. intros _.
  apply guar_bind; [apply He|]. intros decision.
  apply guar_bind; [guar_auto|]. intros s.
  destruct (direct_response_seen _); [done|].
  destruct (last _) as [current|]; [|done].
  apply guar_bind; [guar_auto|]. intros task.
  destruct (sub_tasks task); [done|].
  apply guar_bind.
  { apply guar_PipelineEngine_execute; try apply _.
    intros r a Ha. by eapply specialists_ok. }
  intros result. apply guar_bind; [apply He|]. intros final.
  guar_auto. unfold appends. simpl. reflexivity.
Qed.

End OrchestratorFrames.

(** ** The event log is append-only *)

(** C9. Every core operation -- an agent's [execute], the pipeline
    engine's [execute] and each of its four strategies, and the
    orchestrator's [route_and_execute] -- leaves the event log it found
    as a prefix of the log it produces, whether it returns or raises:
    events are only appended, never changed, removed or reordered. *)
Theorem event_log_append_only `{RT : Runtime} (W : World) (w : wstate W)
    (s : Store) :
  (forall r task_input,
     appends s (run W (execute (agent_of r) task_input) w s).2) /\
  (forall ref,
     appends s (run W (PipelineEngine_execute PipelineEngine_init ref) w s).2) /\
  (forall ref, appends s (run W (_sequential PipelineEngine_init ref) w s).2) /\
  (forall ref, appends s (run W (_parallel PipelineEngine_init ref) w s).2) /\
  (forall ref, appends s (run W (_consensus PipelineEngine_init ref) w s).2) /\
  (forall ref max_rounds,
     appends s (run W (_iterative PipelineEngine_init ref max_rounds) w s).2) /\
  (forall request, appends s (run W (route_and_execute request) w s).2).
Proof.
  assert (Hsp : forall r a, _agents PipelineEngine_init r = Some a ->
                  forall n x, guar appends (handle_tool_call a n x))
    by (intros; by eapply specialists_ok).
  repeat split; intros; apply guar_run; try apply _.
  - apply guar_execute; [apply _|]. apply guar_appends_agent_of.
  - by apply guar_PipelineEngine_execute; try apply _.
  - by eapply guar_sequential; try apply _.
  - by eapply guar_parallel; try apply _.
  - by eapply guar_consensus; try apply _.
  - by eapply guar_iterative; try apply _.
  - apply guar_appends_route.
Qed.

(** ** Specifications of the primitives *)

Section Primitives.
Context (Rl G : relation Store).

Lemma rgwp_modify f (Q : Out unit -> Store -> Prop) s :
  G s (f s) -> Q (inr tt) (f s) -> rgwp Rl G (modify f) Q s.
Proof. by split. Qed.

Lemma rgwp_lift {A : Type} (o : Out A) (Q : Out A -> Store -> Prop) s :
  Q o s -> rgwp Rl G (lift o) Q s.
Proof. by destruct o. Qed.

Lemma rgwp_get_task ref t (Q : Out Task -> Store -> Prop) s :
  objects s !! ref = Some t -> Q (inr t) s -> rgwp Rl G (get_task ref) Q s.
Proof. intros Ht HQ. unfold get_task. simpl. by rewrite Ht. Qed.


Lemma rgwp_monotonic (Q : Out Z -> Store -> Prop) s :
  (forall x, Q (inr x) s) -> rgwp Rl G (io Monotonic) Q s.
Proof. intros H x. apply H. Qed.

Lemma rgwp_add_event `{!LogSteps G} ty text r meta
    (Q : Out Event -> Store -> Prop) s :
  (forall uid now,
     let ev := mkEvent uid now ty r text meta in
     Q (inr ev) (set_events (fun evs => evs ++ [ev]) s)) ->
  rgwp Rl G (add_event ty text r meta) Q s.
Proof.
  intros HQ. unfold add_event, _uid. simpl. intros u now. split; [|apply HQ].
  apply log_event.
Qed.

End Primitives.

(** The consensus strategy of the engine, with its loop over the four
    roles unrolled. *)
Lemma consensus_unfold `{RT : Runtime} ref :
  _consensus PipelineEngine_init ref =
    (task <- get_task ref ;;
     results <-
       gather (map (fun r => execute (agent_of r) (user_input task))
                 agents_to_use) ;;
     Ret (str_join separator
            (consensus_header
             :: map (fun rr => labeled_entry rr.1 rr.2)
                  (zip agents_to_use results)))).
Proof. reflexivity. Qed.

#[global] Instance agent_step_pre : PreOrder agent_step.
Proof.
  split.
  - intros s. split; reflexivity.
  - intros s1 s2 s3 [H1 H2] [H3 H4]. split; etrans; eauto.
Qed.

#[global] Instance agent_step_log : LogSteps agent_step.
Proof. split; intros; split; first [apply log_event|apply log_metrics]. Qed.

(** ** The consensus strategy *)

Section Consensus.
Context `{RT : Runtime}.

Lemma guar_agent_of_specialist G `{!LogSteps G} r inp :
  r <> ORCHESTRATOR -> guar G (execute (agent_of r) inp).
Proof.
  intros Hr. apply guar_execute; [done|]. intros n x.
  destruct r; try done; simpl; apply guar_base_handle_tool_call; intros; exact I.
Qed.

Lemma rgwp_consensus ref task s :
  objects s !! ref = Some task ->
  rgwp eq agent_step (_consensus PipelineEngine_init ref)
    (fun o s' => (exists r, o = inr r) /\ agent_step s s') s.
Proof.
  intros Ht. rewrite consensus_unfold.
  apply rgwp_bind. eapply rgwp_get_task; [done|].
  apply rgwp_bind.
  pose proof (gather_rule (A:=string) (fun _ => agent_step) (fun _ => agent_step)
                (fun _ _ _ => True) (fun _ => agent_step_pre)) as H.
  eapply rgwp_mono'; cycle 1.
  - eapply rgwp_invariant with (I := agent_step s); cycle 3.
    + eapply rgwp_weaken; cycle 2.
      * apply (H ltac:(done) ltac:(done) _ 0%nat s).
        intros k c Hk s' Hs'. apply guar_rgwp.
        destruct k as [|k];
          [injection Hk as <-;
           exact (guar_agent_of_specialist agent_step THINKER _ ltac:(discriminate))|].
        destruct k as [|k];
          [injection Hk as <-;
           exact (guar_agent_of_specialist agent_step SPEED _ ltac:(discriminate))|].
        destruct k as [|k];
          [injection Hk as <-;
           exact (guar_agent_of_specialist agent_step RESEARCHER _ ltac:(discriminate))|].
        destruct k as [|k];
          [injection Hk as <-;
           exact (guar_agent_of_specialist agent_step REASONER _ ltac:(discriminate))|].
        discriminate Hk.
      * intros s1 s2 ->. intros k _. reflexivity.
      * intros s1 s2 (k & _ & Hg). exact Hg.
    + intros s1 s2 H1 ->. done.
    + intros s1 s2 H1 H2. by etrans.
    + reflexivity.
  - intros [e|outs] s'; simpl; [tauto|]. intros [[_ _] Hs]. split; [eauto|done].
Qed.


End Consensus.

#[global] Instance any_step_log : LogSteps any_step.
Proof. by split. Qed.

Lemma lookup_update_task ref f s t :
  objects s !! ref = Some t ->
  objects (update_task ref f s) !! ref = Some (f t).
Proof.
  intros H. unfold TaskRef in *. simpl. by rewrite list_lookup_alter_eq, H.
Qed.

Section ConsensusFrame.
Context `{RT : Runtime}.

Lemma rgwp_execute_consensus ref task s :
  objects s !! ref = Some task ->
  pipeline_type task = CONSENSUS ->
  rgwp eq any_step (PipelineEngine_execute PipelineEngine_init ref)
    (fun o s' =>
       (exists result, o = inr result)
       /\ (exists task',
             objects s' !! ref = Some task'
             /\ sub_tasks task' = sub_tasks task
             /\ t_status task' = COMPLETED)
       /\ pipeline_logged s s') s.
Proof.
  intros Ht Hp. unfold PipelineEngine_execute.
  apply rgwp_bind, rgwp_modify; [done|].
  apply rgwp_bind. eapply rgwp_get_task; [by apply lookup_update_task|].
  apply rgwp_bind, rgwp_add_event; [apply _|]. intros uid now ev.
  apply rgwp_bind, rgwp_monotonic. intros t0.
  apply rgwp_bind. unfold attempt. apply rgwp_try_except.
  apply rgwp_bind. apply rgwp_bind.
  eapply rgwp_get_task; [by apply lookup_update_task|].
  simpl pipeline_type. rewrite Hp.
  apply rgwp_bind.
  eapply rgwp_mono'; cycle 1.
  { eapply rgwp_weaken; cycle 2.
    - eapply rgwp_consensus. by apply lookup_update_task.
    - done.
    - done. }
  intros [e|result] s1; [intros [[? [=]] _]|]. intros [_ [Hap [Hobj Htasks]]].
  apply rgwp_bind, rgwp_modify; [done|].
  apply rgwp_bind, rgwp_monotonic. intros t1.
  apply rgwp_bind, rgwp_modify; [done|].
  cbn [rgwp bind].
  assert (Hl : objects s1 !! ref = Some (set_t_status RUNNING task)).
  { rewrite Hobj. by apply lookup_update_task. }
  apply rgwp_bind. eapply rgwp_get_task.
  { apply lookup_update_task. by apply lookup_update_task. }
  apply rgwp_bind, rgwp_add_event; [apply _|]. intros uid' now' ev'.
  simpl. split; [eauto|]. split.
  - eexists. split.
    + unfold TaskRef in *. rewrite !list_lookup_alter_eq, Hl. reflexivity.
    + done.
  - destruct Hap as [mid Hmid]. simpl in Hmid.
    exists ev, mid, ev'. split; [|done]. cbn. rewrite Hmid. by rewrite <- !app_assoc.
Qed.

(** X3. A run of the pipeline engine on a consensus task returns, marks
    the task completed and logs the start and the completion of the
    pipeline, while the declared sub-task records -- status, result,
    token and latency fields included -- are exactly what they were. *)
Theorem consensus_leaves_subtasks (W : World) (w : wstate W) (s : Store)
    (ref : TaskRef) (task : Task) :
  objects s !! ref = Some task ->
  pipeline_type task = CONSENSUS ->
  exists result w' s' task',
    run W (PipelineEngine_execute PipelineEngine_init ref) w s
      = (inr result, w', s')
    /\ objects s' !! ref = Some task'
    /\ sub_tasks task' = sub_tasks task
    /\ t_status task' = COMPLETED
    /\ pipeline_logged s s'.
Proof.
  intros Ht Hp.
  pose proof (rgwp_run eq any_step W _ _ w s ltac:(done)
                (rgwp_execute_consensus ref task s Ht Hp)) as H.
  destruct (run W _ w s) as [[o w'] s'].
  destruct H as ([result ->] & (task' & H1 & H2 & H3) & H4).
  by exists result, w', s', task'.
Qed.

End ConsensusFrame.

(** ** The parallel strategy *)

Section SlotLemmas.
Context (ref : TaskRef).



Lemma static_dyn_update f st : dyn_update f -> static (f st) = static st.
Proof. by intros []. Qed.

Lemma map_static_alter f i l :
  dyn_update f -> map static (alter f i l) = map static l.
Proof.
  intros Hf. revert i. induction l as [|st l IH]; intros [|i]; simpl; auto.
  - by rewrite static_dyn_update.
  - f_equal. apply IH.
Qed.

Lemma keeps_header_update_subtask i f s :
  dyn_update f -> keeps_header ref s (update_subtask ref i f s).
Proof.
  intros Hf. unfold keeps_header, update_subtask, update_task, TaskRef in *.
  simpl.
  rewrite list_lookup_alter_eq. destruct (objects s !! ref) as [t|]; simpl; [|done].
  unfold header. simpl. by rewrite map_static_alter.
Qed.


Lemma agent_step_only_slot i s s' : agent_step s s' -> only_slot ref i s s'.
Proof.
  intros [_ [Hobj _]]. unfold only_slot, keeps_header, slot. by rewrite Hobj.
Qed.


#[global] Instance slot_kept_pre i : PreOrder (slot_kept ref i).
Proof.
  split.
  - by intros s.
  - intros s1 s2 s3 H1 H2. unfold slot_kept in *. congruence.
Qed.

#[global] Instance keeps_header_pre : PreOrder (keeps_header ref).
Proof.
  split.
  - by intros s.
  - intros s1 s2 s3 H1 H2. unfold keeps_header in *. congruence.
Qed.

#[global] Instance only_slot_pre i : PreOrder (only_slot ref i).
Proof.
  split.
  - intros s. split; [reflexivity|done].
  - intros s1 s2 s3 [H1 H2] [H3 H4]. split; [by etrans|].
    intros j Hj. rewrite H4, H2; done.
Qed.

#[global] Instance only_slot_log i : LogSteps (only_slot ref i).
Proof.
  split; intros; apply agent_step_only_slot;
    first [apply log_event|apply log_metrics].
Qed.




End SlotLemmas.

Section ParallelBranch.
Context `{RT : Runtime}.
Context (ref : TaskRef) (i : nat).


End ParallelBranch.

Section ParallelStrategy.
Context `{RT : Runtime}.
Context (ref : TaskRef).

Lemma header_length t t' :
  header t' = header t -> length (sub_tasks t') = length (sub_tasks t).
Proof.
  unfold header. intros [= _ _ _ _ _ _ _ _ _ H].
  by rewrite <- (length_map static), H, length_map.
Qed.

Lemma lookup_map {A B : Type} (f : A -> B) (l : list A) (i : nat) :
  map f l !! i = f <$> l !! i.
Proof.
  revert i. induction l as [|a l IH]; intros [|i]; simpl; try done.
Qed.

Lemma header_agent t t' i st st' :
  header t' = header t -> sub_tasks t !! i = Some st ->
  sub_tasks t' !! i = Some st' -> assigned_agent st' = assigned_agent st.
Proof.
  unfold header. intros [= _ _ _ _ _ _ _ _ _ H] Hst Hst'.
  assert (Hs : map static (sub_tasks t') !! i = map static (sub_tasks t) !! i)
    by by rewrite H.
  rewrite !lookup_map, Hst, Hst' in Hs. simpl in Hs.
  unfold static in Hs. congruence.
Qed.





End ParallelStrategy.

Section ParallelTheorem.
Context `{RT : Runtime}.
Context (ref : TaskRef).



Lemma run_get_task (W : World) (w : wstate W) (s : Store) (t : Task) :
  objects s !! ref = Some t -> run W (get_task ref) w s = (inr t, w, s).
Proof.
  intros Ht. unfold get_task. cbn [run bind get_store].
  unfold TaskRef in *. by rewrite Ht.
Qed.


End ParallelTheorem.

(** ** From runs in every world to specifications *)

Lemma of_to_answer {X : Type} (e : IO X) (x : X) :
  of_answer e (to_answer e x) = Some x.
Proof. by destruct e. Qed.

Lemma run_primed_none (W : World) {A : Type} (c : Co A) w s :
  run (primed W) c (None, w) s =
    let '(o, w', s') := run W c w s in (o, (None, w'), s').
Proof.
  revert w s. induction c as [a|e|k IH|f k IH|X e k IH]; intros w s; simpl; auto.
  destruct (answer W X e w) as [x w']. apply IH.
Qed.

Lemma rgwp_of_run {A : Type} (c : Co A) (Q : Out A -> Store -> Prop) s :
  (forall (W : World) (w : wstate W), let '(o, _, s') := run W c w s in Q o s') ->
  rgwp eq any_step c Q s.
Proof.
  revert s. induction c as [a|e|k IH|f k IH|X e k IH]; intros s H; simpl.
  - apply (H ScriptedWorld (mkScript 0 [] [])).
  - apply (H ScriptedWorld (mkScript 0 [] [])).
  - apply IH. intros W w. apply (H W w).
  - split; [done|]. apply IH. intros W w. apply (H W w).
  - assert (Hx : forall x, rgwp eq any_step (k x) Q s).
    { intros x. apply IH. intros W w.
      specialize (H (primed W) (Some (to_answer e x), w)). simpl in H.
      rewrite of_to_answer in H. rewrite run_primed_none in H.
      by destruct (run W (k x) w s) as [[o w'] s']. }
    destruct (suspends e); [by intros x s' <-|done].
Qed.



Lemma consensus_leaves_subtasks_witness :
  exists result w' s' task',
    run ScriptedWorld (PipelineEngine_execute PipelineEngine_init 0%nat)
      example_script (example_store CONSENSUS) = (inr result, w', s')
    /\ objects s' !! 0%nat = Some task'
    /\ sub_tasks task' = example_subtasks
    /\ t_status task' = COMPLETED
    /\ pipeline_logged (example_store CONSENSUS) s'.
Proof.
  exact (consensus_leaves_subtasks ScriptedWorld example_script
           (example_store CONSENSUS) 0%nat (example_task CONSENSUS)
           eq_refl eq_refl).
Defined.
(** * Further properties *)

Local Open Scope co_scope.

(** ** What a strategy may change *)

(** A relation that admits every step of a strategy on the task at
    [ref]. *)
Class StrategySteps (ref : TaskRef) (G : relation Store) : Prop := {
  strategy_log :: LogSteps G;
  strategy_subtask :
    forall s i f, dyn_update f -> G s (update_subtask ref i f s);
}.

Section StrategyFrames.
Context `{RT : Runtime}.
Context (G : relation Store) (ref : TaskRef) `{!StrategySteps ref G}.
Context (self : PipelineEngine).
Hypothesis agents_ok :
  forall r a, _agents self r = Some a -> forall n x, guar G (handle_tool_call a n x).

Ltac guar_hook ::=
  match goal with
  | |- guar _ (add_event _ _ _ _) => apply guar_add_event; apply _
  | |- guar _ (update_metrics _ _ _ _) => apply guar_update_metrics; apply _
  | |- guar _ (execute _ _) => apply guar_execute; [apply _|solve [eauto]]
  | |- guar _ (_run_subtask _ _ _ _) =>
      apply guar_run_subtask;
        [apply _|solve [eauto]|intros; by apply strategy_subtask]
  end.

Lemma guar_strategy_sequential : guar G (_sequential self ref).
Proof. unfold _sequential. guar_auto. Qed.

Lemma guar_strategy_parallel : guar G (_parallel self ref).
Proof.
  unfold _parallel. guar_auto.
  - apply guar_gather. apply Forall_lookup. intros i c Hc.
    apply list_lookup_imap_Some in Hc as (st & _ & ->).
    apply guar_run_subtask; [apply _|done|]. intros. by apply strategy_subtask.
  - apply strategy_subtask. constructor.
Qed.

Lemma guar_strategy_rounds producer reviewer rounds round_num draft review :
  (forall n x, guar G (handle_tool_call producer n x)) ->
  (forall n x, guar G (handle_tool_call reviewer n x)) ->
  guar G (iterative_rounds ref producer reviewer rounds round_num draft review).
Proof.
  intros Hp Hr. revert round_num draft review.
  induction rounds as [|n IH]; intros round_num draft review;
    cbn [iterative_rounds]; guar_auto.
Qed.

Lemma guar_strategy_iterative max_rounds :
  guar G (_iterative self ref max_rounds).
Proof.
  unfold _iterative. guar_auto; try apply guar_strategy_sequential;
    try (apply strategy_subtask; constructor).
  apply guar_strategy_rounds; intros; eapply agents_ok; eassumption.
Qed.

End StrategyFrames.

Ltac guar_hook ::=
  match goal with
  | |- guar _ (add_event _ _ _ _) => apply guar_add_event; apply _
  | |- guar _ (update_metrics _ _ _ _) => apply guar_update_metrics; apply _
  | |- guar _ (execute _ _) => apply guar_execute; [apply _|solve [eauto]]
  end.

#[global] Instance strategy_step_pre ref : PreOrder (strategy_step ref).
Proof.
  split.
  - intros s. split; reflexivity.
  - intros s1 s2 s3 [H1 H2] [H3 H4]. split; etrans; eauto.
Qed.

Lemma keeps_header_thread ref s th :
  keeps_header ref s (mkStore th (objects s)).
Proof. done. Qed.

#[global] Instance strategy_step_steps ref :
  StrategySteps ref (strategy_step ref).
Proof.
  split; [split|].
  - intros s ev. split; [apply log_event|done].
  - intros s f. split; [apply log_metrics|done].
  - intros s i f Hf. split; [unfold appends; reflexivity|].
    by apply keeps_header_update_subtask.
Qed.

(** Where a coroutine that runs alone can end. *)
Lemma guar_reach (G : relation Store) `{!PreOrder G} {A : Type} (c : Co A) s :
  guar G c -> rgwp eq any_step c (fun _ s' => G s s') s.
Proof.
  intros Hc. eapply rgwp_mono'; cycle 1.
  - eapply rgwp_weaken with (Rl := eq) (G := G); [done|done|].
    eapply rgwp_invariant with (I := G s); cycle 3.
    + by apply guar_rgwp.
    + by intros s1 s2 H ->.
    + intros s1 s2 H1 H2. by etrans.
    + reflexivity.
  - by intros o s' [_ H].
Qed.

Section Envelope.
Context `{RT : Runtime}.

Lemma guar_strategy_of ref p : guar (strategy_step ref) (strategy_of ref p).
Proof.
  assert (Hsp : forall r a, _agents PipelineEngine_init r = Some a ->
                  forall n x, guar (strategy_step ref) (handle_tool_call a n x))
    by (intros; by eapply specialists_ok).
  destruct p; cbn [strategy_of].
  - by apply guar_strategy_sequential; try apply _.
  - by apply guar_strategy_parallel; try apply _.
  - by apply guar_consensus; try apply _.
  - by apply guar_strategy_iterative; try apply _.
  - by apply guar_strategy_sequential; try apply _.
Qed.

Lemma rgwp_execute_envelope ref task s :
  objects s !! ref = Some task ->
  rgwp eq any_step (PipelineEngine_execute PipelineEngine_init ref)
    (envelope_post ref task s) s.
Proof.
  intros Ht. unfold PipelineEngine_execute.
  apply rgwp_bind, rgwp_modify; [done|].
  apply rgwp_bind. eapply rgwp_get_task; [by apply lookup_update_task|].
  apply rgwp_bind, rgwp_add_event; [apply _|]. intros uid now ev.
  apply rgwp_bind, rgwp_monotonic. intros t0.
  apply rgwp_bind. unfold attempt. apply rgwp_try_except.
  apply rgwp_bind. apply rgwp_bind.
  eapply rgwp_get_task; [by apply lookup_update_task|].
  change (match pipeline_type (set_t_status RUNNING task) with
          | SEQUENTIAL => _ | PARALLEL => _ | CONSENSUS => _
          | ITERATIVE => _ | AUTO => _ end)
    with (strategy_of ref (pipeline_type task)).
  apply rgwp_bind.
  eapply rgwp_mono'; cycle 1.
  { apply (guar_reach (strategy_step ref)). apply guar_strategy_of. }
  intros o s3 [Hap Hh].
  assert (Ht3 : exists t3, objects s3 !! ref = Some t3
                           /\ header t3 = header (set_t_status RUNNING task)).
  { unfold keeps_header in Hh. unfold TaskRef in *. cbn in Hh.
    rewrite list_lookup_alter_eq, Ht in Hh.
    destruct (objects s3 !! ref) as [t3|]; [|done].
    exists t3. split; [done|]. cbn in Hh. congruence. }
  destruct Ht3 as (t3 & Ht3 & Hh3).
  destruct Hap as [mid Hmid]. cbn in Hmid.
  assert (Hfix : forall f, hdr_update f -> fixed (f t3) = fixed task).
  { intros f Hf. unfold header in Hh3. unfold fixed.
    injection Hh3 as H1 H2 H3 H4 H5 H6 H7 H8 H9 H10.
    destruct Hf; cbn; congruence. }
  destruct o as [e|result].
  - cbn [rgwp].
    apply rgwp_bind. apply rgwp_bind, rgwp_modify; [done|].
    apply rgwp_bind, rgwp_add_event; [apply _|]. intros uid1 now1 ev1.
    cbn [rgwp]. apply rgwp_bind. eapply rgwp_get_task.
    { by apply lookup_update_task. }
    apply rgwp_bind, rgwp_add_event; [apply _|]. intros uid2 now2 ev2.
    cbn [rgwp]. eexists _, _. split; [done|]. split.
    { by apply lookup_update_task. }
    split; [apply Hfix; constructor|]. split.
    { exists ev, (mid ++ [ev1]), ev2. cbn. rewrite Hmid.
      by rewrite <- !app_assoc. }
    right. split; [done|]. split.
    { unfold header in Hh3. cbn. cbn in Hh3. congruence. }
    split; [by exists e|].
    eexists _, ev1, ev2. cbn. split; [|done]. by rewrite <- app_assoc.
  - apply rgwp_bind, rgwp_modify; [done|].
    apply rgwp_bind, rgwp_monotonic. intros t1.
    apply rgwp_bind, rgwp_modify; [done|].
    cbn [rgwp bind].
    apply rgwp_bind. eapply rgwp_get_task.
    { apply lookup_update_task. by apply lookup_update_task. }
    apply rgwp_bind, rgwp_add_event; [apply _|]. intros uid2 now2 ev2.
    cbn [rgwp]. eexists _, _. split; [done|]. split.
    { apply lookup_update_task. by apply lookup_update_task. }
    split.
    { etrans; [|apply (Hfix (set_t_status COMPLETED)); constructor]. done. }
    split.
    { exists ev, mid, ev2. cbn. rewrite Hmid. by rewrite <- !app_assoc. }
    by left.
Qed.

End Envelope.

(** ** The common envelope of the pipeline engine *)

Section EnvelopeProperties.
Context `{RT : Runtime}.

(** X4. A run of the pipeline engine on an existing task returns a
    string whatever the strategy, the model and the tools do: no
    exception leaves [PipelineEngine.execute].  The task ends completed
    or failed, its identity, input, pipeline type and the fixed fields
    of its sub-tasks are kept, and the log gains a pipeline-start event
    first and, last, a pipeline-complete event that names the final
    status and carries the latency recorded on the task. *)
Theorem pipeline_execute_returns (W : World) (w : wstate W) (s : Store)
    (ref : TaskRef) (task : Task) :
  objects s !! ref = Some task ->
  exists result w' s' task',
    run W (PipelineEngine_execute PipelineEngine_init ref) w s
      = (inr result, w', s')
    /\ objects s' !! ref = Some task'
    /\ fixed task' = fixed task
    /\ (t_status task' = COMPLETED \/ t_status task' = FAILED)
    /\ envelope_logged task' s s'.
Proof.
  intros Ht.
  pose proof (rgwp_run eq any_step W _ _ w s ltac:(done)
                (rgwp_execute_envelope ref task s Ht)) as H.
  destruct (run W _ w s) as [[o w'] s'].
  destruct H as (result & task' & -> & Hl & Hf & Hlog & Hst).
  exists result, w', s', task'. repeat split; try done.
  destruct Hst as [?|[? _]]; [by left|by right].
Qed.


End EnvelopeProperties.

Lemma pipeline_execute_returns_witness :
  exists result w' s' task',
    run ScriptedWorld (PipelineEngine_execute PipelineEngine_init 0%nat)
      example_script (example_store SEQUENTIAL) = (inr result, w', s')
    /\ objects s' !! 0%nat = Some task'
    /\ fixed task' = fixed (example_task SEQUENTIAL)
    /\ (t_status task' = COMPLETED \/ t_status task' = FAILED)
    /\ envelope_logged task' (example_store SEQUENTIAL) s'.
Proof.
  exact (pipeline_execute_returns ScriptedWorld example_script
           (example_store SEQUENTIAL) 0%nat (example_task SEQUENTIAL) eq_refl).
Defined.


(** ** Calls to the model *)

Lemma no_llm_try_except {A : Type} (c : Co A) (h : Exn -> Co A) :
  no_llm c -> (forall e, no_llm (h e)) -> no_llm (try_except c h).
Proof.
  intros Hc Hh. induction c as [a|e|k IH|g k IH|X e k IH]; simpl in *; auto.
  destruct Hc. auto.
Qed.

Lemma no_llm_fold_co {A B : Type} (l : list A) (acc : B) (body : B -> A -> Co B) :
  (forall b a, no_llm (body b a)) -> no_llm (fold_co l acc body).
Proof.
  intros Hb. revert acc. induction l as [|x l IH]; intros acc; simpl; [done|].
  apply no_llm_bind; auto.
Qed.

Create HintDb no_llm_db.

Ltac no_llm_auto :=
  repeat first
    [ progress intros
    | progress cbv beta
    | exact I
    | solve [eauto 2 with no_llm_db nocore]
    | apply no_llm_lift
    | apply no_llm_bind
    | apply no_llm_try_except
    | apply no_llm_fold_co
    | match goal with
      | |- no_llm (match ?x with _ => _ end) => destruct x
      | |- no_llm (if ?x then _ else _) => destruct x
      | |- no_llm (io _) => split; [exact I|intros ?; exact I]
      | |- no_llm (modify _) => exact I
      | |- no_llm get_store => intros ?; exact I
      end ].

Section NoLLM.
Context `{RT : Runtime}.

Lemma no_llm_uid : no_llm _uid.
Proof. unfold _uid. no_llm_auto. Qed.
#[local] Hint Resolve no_llm_uid : no_llm_db.

Lemma no_llm_add_event ty text r meta : no_llm (add_event ty text r meta).
Proof. unfold add_event. no_llm_auto. Qed.
#[local] Hint Resolve no_llm_add_event : no_llm_db.

Lemma no_llm_update_metrics r tokens latency success :
  no_llm (update_metrics r tokens latency success).
Proof. unfold update_metrics. no_llm_auto. Qed.
#[local] Hint Resolve no_llm_update_metrics : no_llm_db.

Lemma no_llm_parse_text_tool_calls text : no_llm (_parse_text_tool_calls text).
Proof.
  unfold _parse_text_tool_calls, try_except_types, parse_block. no_llm_auto.
Qed.
#[local] Hint Resolve no_llm_parse_text_tool_calls : no_llm_db.

Lemma no_llm_read_reply tools latency response :
  no_llm (read_reply tools latency response).
Proof. unfold read_reply. no_llm_auto. Qed.

Lemma no_llm_base_handle_tool_call r custom fn_name fn_args :
  (forall n x, no_llm (custom n x)) ->
  no_llm (BaseAgent_handle_tool_call r custom fn_name fn_args).
Proof. intros Hc. unfold BaseAgent_handle_tool_call. no_llm_auto; apply Hc. Qed.

Lemma no_llm_orchestrator_tools n x :
  no_llm (OrchestratorAgent_handle_tool_call n x).
Proof.
  unfold OrchestratorAgent_handle_tool_call, _handle_decompose, make_subtask.
  no_llm_auto. apply no_llm_base_handle_tool_call. intros. exact I.
Qed.

(** No tool of any agent of the program calls the model. *)
Lemma no_llm_agent_of r n x : no_llm (handle_tool_call (agent_of r) n x).
Proof.
  destruct r; simpl;
    first [apply no_llm_orchestrator_tools
          |apply no_llm_base_handle_tool_call; intros; exact I].
Qed.

Lemma no_llm_dispatch_tool_call a messages tc :
  (forall n x, no_llm (handle_tool_call a n x)) ->
  no_llm (dispatch_tool_call a messages tc).
Proof. intros Hh. unfold dispatch_tool_call. no_llm_auto. Qed.

End NoLLM.

Lemma llm_bound_mono {A : Type} (c : Co A) (n m : nat) :
  (n <= m)%nat -> llm_bound c n -> llm_bound c m.
Proof.
  revert n m. induction c as [a|e|k IH|g k IH|X e k IH]; intros n m Hnm;
    simpl; eauto.
  destruct (is_llm e); [|eauto].
  destruct n as [|n]; [done|]. destruct m as [|m]; [lia|].
  intros H x. eapply IH; [|apply H]. lia.
Qed.

Lemma llm_bound_bind {A B : Type} (c : Co A) (f : A -> Co B) (n m : nat) :
  llm_bound c n -> (forall a, llm_bound (f a) m) ->
  llm_bound (bind c f) (n + m).
Proof.
  intros Hc Hf. revert n Hc.
  induction c as [a|e|k IH|g k IH|X e k IH]; intros n Hc; simpl in *; auto.
  - eapply llm_bound_mono; [|apply Hf]. lia.
  - destruct (is_llm e); [|auto].
    destruct n as [|n]; [done|]. simpl. auto.
Qed.

Lemma llm_bound_try_except {A : Type} (c : Co A) (h : Exn -> Co A) (n m : nat) :
  llm_bound c n -> (forall e, llm_bound (h e) m) ->
  llm_bound (try_except c h) (n + m).
Proof.
  intros Hc Hh. revert n Hc.
  induction c as [a|e|k IH|g k IH|X e k IH]; intros n Hc; simpl in *; auto.
  - eapply llm_bound_mono; [|apply Hh]. lia.
  - destruct (is_llm e); [|auto].
    destruct n as [|n]; [done|]. simpl. auto.
Qed.

Lemma no_llm_bound {A : Type} (c : Co A) (n : nat) : no_llm c -> llm_bound c n.
Proof.
  induction c as [a|e|k IH|g k IH|X e k IH]; simpl; auto.
  intros [He Hk]. destruct e; simpl; try done; auto.
Qed.

Lemma llm_bound_replies (W : World) {A : Type} (c : Co A) (n : nat) w s :
  llm_bound c n -> (length (llm_replies W c w s) <= n)%nat.
Proof.
  revert n w s. induction c as [a|e|k IH|g k IH|X e k IH]; intros n w s H;
    simpl in *; try lia; auto.
  destruct (answer W X e w) as [x w'].
  destruct e; simpl in *; try (by apply IH).
  destruct n as [|n]; [done|]. simpl. specialize (IH x n w' s (H x)). lia.
Qed.

Section CallBound.
Context `{RT : Runtime}.

Lemma call_llm_unfold (self : Agent) messages tools :
  call_llm self messages tools =
    (t0 <- io Monotonic ;;
     reply <- io (ChatCompletion (chat_request self messages tools)) ;;
     response <- lift reply ;;
     t1 <- io Monotonic ;;
     read_reply tools ((t1 - t0) * 1000) response).
Proof. reflexivity. Qed.

Lemma llm_bound_call_llm a messages tools :
  llm_bound (call_llm a messages tools) 1.
Proof.
  rewrite call_llm_unfold. cbn [bind io llm_bound is_llm]. intros t0 reply.
  apply no_llm_bound. destruct reply as [e|resp]; cbn [lift bind no_llm]; [done|].
  split; [done|]. intros t1. apply no_llm_read_reply.
Qed.

Lemma llm_bound_execute_loop a tools remaining step messages :
  (forall n x, no_llm (handle_tool_call a n x)) ->
  llm_bound (execute_loop a tools remaining step messages) remaining.
Proof.
  intros Hh. revert step messages.
  induction remaining as [|n IH]; intros step messages; cbn [execute_loop].
  - apply no_llm_bound. no_llm_auto.
  - apply (llm_bound_bind _ _ 1 n).
    { unfold attempt. apply (llm_bound_try_except _ _ 1 0); [|done].
      apply (llm_bound_bind _ _ 1 0); [apply llm_bound_call_llm|done]. }
    intros [e|result].
    + apply no_llm_bound. no_llm_auto.
    + apply (llm_bound_bind _ _ 0 n).
      { apply no_llm_bound. destruct (str_truthy _); [|done]. no_llm_auto. }
      intros _. destruct (r_tool_calls result) as [|tc tcs].
      * apply no_llm_bound. no_llm_auto.
      * apply (llm_bound_bind _ _ 0 n); [|apply IH].
        apply no_llm_bound. apply no_llm_fold_co. intros.
        by apply no_llm_dispatch_tool_call.
Qed.

Lemma llm_bound_execute a task_input :
  (forall n x, no_llm (handle_tool_call a n x)) ->
  llm_bound (execute a task_input) (max_steps a).
Proof.
  intros Hh. unfold execute.
  apply (llm_bound_bind _ _ 0 (max_steps a));
    [apply no_llm_bound, no_llm_add_event|]. intros _.
  cbn [bind get_store llm_bound]. intros s.
  by apply llm_bound_execute_loop.
Qed.

End CallBound.

(** ** Runs of an agent *)

Section AgentRuns.
Context `{RT : Runtime} (W : World).

(** X6. However the model and the tools behave, a run of an agent's
    [execute] calls the model at most [max_steps] times, which is ten
    for each of the five agents of the program. *)
Theorem execute_calls_bounded (w : wstate W) (s : Store) (r : AgentRole)
    (task_input : string) :
  (length (llm_replies W (execute (agent_of r) task_input) w s)
   <= max_steps (agent_of r))%nat
  /\ max_steps (agent_of r) = 10%nat.
Proof.
  split; [|by destruct r].
  apply llm_bound_replies, llm_bound_execute. apply no_llm_agent_of.
Qed.

Lemma run_add_event ty text r meta w s :
  exists uid now w',
    run W (add_event ty text r meta) w s =
      (inr (mkEvent uid now ty r text meta), w',
       set_events (fun evs => evs ++ [mkEvent uid now ty r text meta]) s).
Proof.
  unfold add_event, _uid. cbn [run bind io modify].
  destruct (answer W _ Uuid4_hex w) as [u w1].
  destruct (answer W _ Now w1) as [now w2]. by eexists _, _, _.
Qed.

Lemma llm_replies_attempt {A : Type} (c : Co A) w s :
  llm_replies W (attempt c) w s = llm_replies W c w s.
Proof.
  unfold attempt. rewrite llm_replies_try_except, llm_replies_bind, run_bind.
  destruct (run W c w s) as [[[e|a] w'] s']; simpl; by rewrite !app_nil_r.
Qed.

Lemma call_llm_run a msgs tools w s :
  exists reply w1,
    llm_replies W (call_llm a msgs tools) w s = [reply]
    /\ match reply with
       | inl e => run W (call_llm a msgs tools) w s = (inl e, w1, s)
       | inr resp =>
           exists latency,
             run W (call_llm a msgs tools) w s
               = run W (read_reply tools latency resp) w1 s
       end.
Proof.
  rewrite call_llm_unfold. cbn [run llm_replies bind io].
  destruct (answer W _ Monotonic w) as [t0 w0]. cbn [llm_reply].
  destruct (answer W _ (ChatCompletion (chat_request a msgs tools)) w0)
    as [reply w1].
  destruct reply as [e|resp]; cbn [lift bind run llm_replies].
  - by exists (inl e), w1.
  - destruct (answer W _ Monotonic w1) as [t1 w2]. cbn [llm_reply].
    exists (inr resp), w2. split.
    + f_equal. apply no_llm_replies, no_llm_read_reply.
    + by exists ((t1 - t0) * 1000).
Qed.

Lemma run_update_metrics r tokens latency success w s :
  exists now w',
    run W (update_metrics r tokens latency success) w s =
      (inr tt, w',
       set_agent_metrics
         (record_metrics (AgentRole_value r) tokens latency success now) s).
Proof.
  unfold update_metrics. cbn [run bind io modify].
  destruct (answer W _ Now w) as [now w']. by exists now, w'.
Qed.

Lemma execute_loop_S a tools n step msgs :
  execute_loop a tools (S n) step msgs =
    (r <- attempt (call_llm a msgs tools) ;;
     match r with
     | inl e => after_failure a e
     | inr result => after_reply a tools n step msgs result
     end).
Proof. reflexivity. Qed.

(** The start of a run of [execute]: the start event, then the loop. *)
Lemma execute_run a input w s :
  exists uid now w1,
    let ev :=
      mkEvent uid now AGENT_START (Some (role a))
        ("Agent " +:+ AgentRole_value (role a) +:+ " starting: "
         +:+ str_take 100 input) [] in
    let s1 := set_events (fun evs => evs ++ [ev]) s in
    let loop :=
      execute_loop a (get_tools a) (max_steps a) 0
        (build_context a (thread s1) input) in
    run W (execute a input) w s = run W loop w1 s1
    /\ llm_replies W (execute a input) w s = llm_replies W loop w1 s1.
Proof.
  unfold execute.
  destruct (run_add_event AGENT_START
              ("Agent " +:+ AgentRole_value (role a) +:+ " starting: "
               +:+ str_take 100 input) (Some (role a)) [] w s)
    as (uid & now & w1 & Hev).
  exists uid, now, w1. cbn zeta. split.
  - rewrite run_bind, Hev. reflexivity.
  - rewrite llm_replies_bind, Hev.
    rewrite (no_llm_replies _ _ _ _ (no_llm_add_event _ _ _ _)). reflexivity.
Qed.

(** One iteration of the loop of [execute]. *)
Lemma execute_loop_step a tools n step msgs w s :
  let loop := execute_loop a tools (S n) step msgs in
  exists reply w1,
    match reply with
    | inl e =>
        llm_replies W loop w s = [inl e]
        /\ run W loop w s = run W (after_failure a e) w1 s
    | inr resp =>
        exists latency,
          match run W (read_reply tools latency resp) w1 s with
          | (inl e, w2, s2) =>
              llm_replies W loop w s = [inr resp]
              /\ run W loop w s = run W (after_failure a e) w2 s2
          | (inr result, w2, s2) =>
              llm_replies W loop w s =
                inr resp
                :: llm_replies W (after_reply a tools n step msgs result) w2 s2
              /\ run W loop w s =
                   run W (after_reply a tools n step msgs result) w2 s2
          end
    end.
Proof.
  intros loop. subst loop. rewrite execute_loop_S.
  destruct (call_llm_run a msgs tools w s) as (reply & w1 & Hrep & Hrun).
  exists reply, w1.
  assert (Hfail : forall e w s, llm_replies W (after_failure a e) w s = []).
  { intros. apply no_llm_replies. unfold after_failure. no_llm_auto. }
  destruct reply as [e|resp].
  - rewrite llm_replies_bind, run_bind, llm_replies_attempt, run_attempt, Hrep, Hrun.
    cbn. by rewrite Hfail.
  - destruct Hrun as [latency Hrun]. exists latency.
    rewrite llm_replies_bind, run_bind, llm_replies_attempt, run_attempt, Hrep, Hrun.
    destruct (run W (read_reply tools latency resp) w1 s) as [[[e|result] w2] s2];
      cbn; [by rewrite Hfail|done].
Qed.

End AgentRuns.

Section AgentOutcomes.
Context `{RT : Runtime} (W : World).

Lemma run_after_failure a e w s :
  exists uid now now' w',
    let error_msg :=
      "LLM call failed: " +:+ exc_type e +:+ ": " +:+ exc_str e in
    let ev := mkEvent uid now ERROR (Some (role a)) error_msg [] in
    run W (after_failure a e) w s =
      (inr ("[Error] " +:+ error_msg), w',
       set_agent_metrics
         (record_metrics (AgentRole_value (role a)) 0 0 false now')
         (set_events (fun evs => evs ++ [ev]) s)).
Proof.
  unfold after_failure.
  destruct (run_add_event W ERROR
              ("LLM call failed: " +:+ exc_type e +:+ ": " +:+ exc_str e)
              (Some (role a)) [] w s) as (uid & now & w1 & Hev).
  destruct (run_update_metrics W (role a) 0 0 false w1
              (set_events (fun evs => evs ++ [mkEvent uid now ERROR
                 (Some (role a))
                 ("LLM call failed: " +:+ exc_type e +:+ ": " +:+ exc_str e)
                 []]) s)) as (now' & w2 & Hm).
  exists uid, now, now', w2. cbn zeta.
  rewrite run_bind, Hev. cbn iota beta. rewrite run_bind, Hm. reflexivity.
Qed.

(** X7. If the first call to the model fails with an exception, the
    agent does not call the model again and does not raise: [execute]
    returns the text [[Error] LLM call failed: <type>: <message>],
    having appended the start event and an error event with that
    message and recorded one failed call in the metrics of its role;
    the tasks are untouched. *)
Theorem execute_llm_failure (w : wstate W) (s : Store) (a : Agent)
    (task_input : string) (e : Exn) (rest : list (Out ChatResponse)) :
  (0 < max_steps a)%nat ->
  llm_replies W (execute a task_input) w s = inl e :: rest ->
  let error_msg :=
    "LLM call failed: " +:+ exc_type e +:+ ": " +:+ exc_str e in
  rest = []
  /\ exists w' s' ev1 ev2 now,
       run W (execute a task_input) w s
         = (inr ("[Error] " +:+ error_msg), w', s')
       /\ events (thread s') = events (thread s) ++ [ev1; ev2]
       /\ event_type ev1 = AGENT_START
       /\ event_type ev2 = ERROR
       /\ content ev2 = error_msg
       /\ agent_metrics (thread s') =
            record_metrics (AgentRole_value (role a)) 0 0 false now
              (agent_metrics (thread s))
       /\ objects s' = objects s.
Proof.
  intros Hsteps Hrep error_msg.
  destruct (execute_run W a task_input w s) as (uid & now & w1 & Hrun & Hreps).
  cbn zeta in Hrun, Hreps. rewrite Hreps in Hrep. rewrite Hrun. clear Hrun Hreps.
  destruct (max_steps a) as [|n]; [lia|].
  match type of Hrep with
  | llm_replies W (execute_loop a ?tools (S n) ?step ?msgs) w1 ?s1 = _ =>
      destruct (execute_loop_step W a tools n step msgs w1 s1)
        as (reply & w2 & Hstep)
  end.
  destruct reply as [e'|resp].
  - destruct Hstep as [Hr Hrun]. rewrite Hr in Hrep. injection Hrep as -> <-.
    split; [done|]. rewrite Hrun.
    destruct (run_after_failure a e w2
                (set_events (fun evs => evs ++
                   [mkEvent uid now AGENT_START (Some (role a))
                      ("Agent " +:+ AgentRole_value (role a) +:+ " starting: "
                       +:+ str_take 100 task_input) []]) s))
      as (uid' & now1 & now' & w' & Hf).
    cbn zeta in Hf. rewrite Hf.
    eexists _, _, _, _, now'. split; [reflexivity|]. cbn.
    rewrite <- app_assoc. done.
  - destruct Hstep as [latency Hstep].
    destruct (run W (read_reply _ latency resp) w2 _) as [[[e'|result] w3] s3];
      destruct Hstep as [Hr _]; rewrite Hr in Hrep; discriminate.
Qed.

End AgentOutcomes.

Lemma execute_llm_failure_witness :
  exists w' s' ev1 ev2 now,
    run ScriptedWorld (execute ThinkerAgent "What is 2 + 2?") example_script
      empty_store
      = (inr "[Error] LLM call failed: APIConnectionError: Connection error.",
         w', s')
    /\ events (thread s') = [ev1; ev2]
    /\ event_type ev1 = AGENT_START
    /\ event_type ev2 = ERROR
    /\ content ev2 = "LLM call failed: APIConnectionError: Connection error."
    /\ agent_metrics (thread s') =
         record_metrics "thinker" 0 0 false now ∅
    /\ objects s' = [].
Proof.
  destruct (execute_llm_failure ScriptedWorld example_script empty_store
              ThinkerAgent "What is 2 + 2?"
              (mkExn "APIConnectionError" "Connection error.") []
              ltac:(vm_compute; lia) ltac:(vm_compute; reflexivity))
    as [_ H].
  exact H.
Defined.

Section ReplyOutcomes.
Context `{RT : Runtime} (W : World).

Lemma run_read_reply_quiet tools latency resp choice others w s :
  choices resp = choice :: others ->
  native_calls_of choice = [] ->
  tools_offered tools = false
  \/ _TOOL_CALL_RE_findall (raw_content_of choice) = [] ->
  exists result,
    run W (read_reply tools latency resp) w s = (inr result, w, s)
    /\ r_tool_calls result = []
    /\ r_content result = _strip_thinking_tags (raw_content_of choice)
    /\ r_tokens_total result = total_tokens_of resp
    /\ r_latency_ms result = latency.
Proof.
  intros Hc Hn Hq. unfold read_reply. rewrite Hc. cbn zeta.
  unfold native_calls_of in Hn. rewrite Hn. cbn [map].
  fold (raw_content_of choice).
  assert (Hp : tools_offered tools
               && negb (String.eqb (raw_content_of choice) EmptyString) = true ->
               _parse_text_tool_calls (raw_content_of choice) = Ret None).
  { intros [Ht Hne]%andb_prop. destruct Hq as [Hq|Hq]; [congruence|].
    unfold _parse_text_tool_calls. rewrite Hq.
    by destruct (String.eqb _ _). }
  destruct (tools_offered tools && negb _) eqn:Hb.
  - rewrite (Hp eq_refl). cbn. by eexists.
  - cbn. by eexists.
Qed.

Lemma run_read_reply_native tools latency resp choice others tc tcs w s :
  choices resp = choice :: others ->
  native_calls_of choice = tc :: tcs ->
  exists result,
    run W (read_reply tools latency resp) w s = (inr result, w, s)
    /\ r_tool_calls result =
         map (fun tc => mkToolCall (ntc_id tc) (JString (ntc_name tc))
                          (JString (ntc_arguments tc))) (tc :: tcs).
Proof.
  intros Hc Hn. unfold read_reply. rewrite Hc. cbn zeta.
  unfold native_calls_of in Hn. rewrite Hn. cbn. by eexists.
Qed.

(** The thinking event, if any, that precedes the handling of a reply. *)
Lemma run_thinking a (result : LLMResult) w s :
  exists w' evs,
    run W (if str_truthy (r_thinking result) then
             add_event AGENT_THINKING
               (str_take 500 (default EmptyString (r_thinking result)))
               (Some (role a)) [] ;;
             Ret tt
           else Ret tt) w s
      = (inr tt, w', set_events (fun l => l ++ evs) s).
Proof.
  destruct (str_truthy _).
  - destruct (run_add_event W AGENT_THINKING
                (str_take 500 (default EmptyString (r_thinking result)))
                (Some (role a)) [] w s) as (uid & now & w' & Hev).
    rewrite run_bind, Hev. by eexists _, [_].
  - exists w, []. cbn. destruct s as [[] ?]. unfold set_events. cbn.
    by rewrite app_nil_r.
Qed.

Lemma run_after_reply_final a tools n step msgs result w s :
  r_tool_calls result = [] ->
  exists w' s' evs ev now,
    run W (after_reply a tools n step msgs result) w s
      = (inr (r_content result), w', s')
    /\ llm_replies W (after_reply a tools n step msgs result) w s = []
    /\ events (thread s') = events (thread s) ++ evs ++ [ev]
    /\ event_type ev = AGENT_RESPONSE
    /\ content ev = r_content result
    /\ metadata ev = [("tokens", r_tokens_total result);
                      ("latency_ms", r_latency_ms result); ("step", step)]
    /\ agent_metrics (thread s') =
         record_metrics (AgentRole_value (role a)) (r_tokens_total result)
           (r_latency_ms result) true now (agent_metrics (thread s))
    /\ objects s' = objects s.
Proof.
  intros Hcalls. unfold after_reply. rewrite Hcalls.
  destruct (run_thinking a result w s) as (w1 & evs & Hth).
  destruct (run_add_event W AGENT_RESPONSE (r_content result) (Some (role a))
              [("tokens", r_tokens_total result);
               ("latency_ms", r_latency_ms result); ("step", step)]
              w1 (set_events (fun l => l ++ evs) s)) as (uid & now & w2 & Hev).
  match type of Hev with
  | _ = (_, _, ?s2) =>
      destruct (run_update_metrics W (role a) (r_tokens_total result)
                  (r_latency_ms result) true w2 s2) as (now' & w3 & Hm)
  end.
  eexists w3, _, evs, _, now'. split; [|split].
  - rewrite run_bind, Hth. cbn iota beta zeta.
    rewrite run_bind, Hev. cbn iota beta. rewrite run_bind, Hm. reflexivity.
  - apply no_llm_replies. no_llm_auto.
  - cbn. by rewrite <- app_assoc.
Qed.

Lemma run_after_reply_malformed a tools n step msgs result tc tcs e w s :
  r_tool_calls result = tc :: tcs ->
  json_loads_any (tc_arguments tc) = inl e ->
  exists w' s',
    run W (after_reply a tools n step msgs result) w s = (inl e, w', s')
    /\ llm_replies W (after_reply a tools n step msgs result) w s = [].
Proof.
  intros Hcalls Hargs. unfold after_reply. rewrite Hcalls.
  destruct (run_thinking a result w s) as (w1 & evs & Hth).
  exists w1, (set_events (fun l => l ++ evs) s). split.
  - rewrite run_bind, Hth. cbn iota beta. cbn [fold_co].
    unfold dispatch_tool_call at 1. rewrite Hargs. reflexivity.
  - rewrite llm_replies_bind, Hth. cbn [fold_co].
    unfold dispatch_tool_call at 1. rewrite Hargs. cbn.
    rewrite app_nil_r. apply no_llm_replies. no_llm_auto.
Qed.

End ReplyOutcomes.

Section ReplyTheorems.
Context `{RT : Runtime} (W : World).

(** X8. If the first reply of the model requests no tool call -- its
    structured field is empty and no [<tool_call>] block is found in
    its text, or no tools were offered -- then the model is called
    exactly once and [execute] returns the visible content of that
    reply, that is its text without the thinking blocks; the last event
    is the agent's response with that content, the token count of the
    reply and step 0, one successful call is recorded in the metrics of
    the role, and the tasks are untouched. *)
Theorem execute_single_reply (w : wstate W) (s : Store) (a : Agent)
    (task_input : string) (resp : ChatResponse) (choice : Choice)
    (others : list Choice) (rest : list (Out ChatResponse)) :
  (0 < max_steps a)%nat ->
  llm_replies W (execute a task_input) w s = inr resp :: rest ->
  choices resp = choice :: others ->
  native_calls_of choice = [] ->
  tools_offered (get_tools a) = false
  \/ _TOOL_CALL_RE_findall (raw_content_of choice) = [] ->
  let text := _strip_thinking_tags (raw_content_of choice) in
  rest = []
  /\ exists w' s' evs ev latency now,
       run W (execute a task_input) w s = (inr text, w', s')
       /\ events (thread s') = events (thread s) ++ evs ++ [ev]
       /\ event_type ev = AGENT_RESPONSE
       /\ content ev = text
       /\ metadata ev = [("tokens", total_tokens_of resp);
                         ("latency_ms", latency); ("step", 0)]
       /\ agent_metrics (thread s') =
            record_metrics (AgentRole_value (role a)) (total_tokens_of resp)
              latency true now (agent_metrics (thread s))
       /\ objects s' = objects s.
Proof.
  intros Hsteps Hrep Hc Hn Hq text.
  destruct (execute_run W a task_input w s) as (uid & now & w1 & Hrun & Hreps).
  cbn zeta in Hrun, Hreps. rewrite Hreps in Hrep. rewrite Hrun. clear Hrun Hreps.
  destruct (max_steps a) as [|n]; [lia|].
  match type of Hrep with
  | llm_replies W (execute_loop a ?tools (S n) ?step ?msgs) w1 ?s1 = _ =>
      destruct (execute_loop_step W a tools n step msgs w1 s1)
        as (reply & w2 & Hstep)
  end.
  destruct reply as [e'|resp'].
  { destruct Hstep as [Hr _]. rewrite Hr in Hrep. discriminate. }
  destruct Hstep as [latency Hstep].
  assert (resp' = resp) as ->.
  { destruct (run W (read_reply _ latency resp') w2 _) as [[[e'|result] w3] s3];
      destruct Hstep as [Hr _]; rewrite Hr in Hrep; congruence. }
  match type of Hstep with
  | match run W _ w2 ?s1 with _ => _ end =>
      destruct (run_read_reply_quiet W (get_tools a) latency resp choice others
                  w2 s1 Hc Hn Hq) as (result & Hread & Hcalls & Htext & Htok & Hlat)
  end.
  rewrite Hread in Hstep. destruct Hstep as [Hr Hrun].
  match type of Hrun with
  | _ = run W (after_reply a ?tools n ?step ?msgs result) w2 ?s1 =>
      destruct (run_after_reply_final W a tools n step msgs result w2 s1 Hcalls)
        as (w' & s' & evs & ev & now' & Hfin & Hnone & Hevs & Hty & Hcont
            & Hmeta & Hmet & Hobj)
  end.
  rewrite Hr, Hnone in Hrep. split; [congruence|].
  eexists w', s', (_ :: evs), ev, latency, now'.
  rewrite Hrun, Hfin, Htext. split; [done|]. split.
  { rewrite Hevs. cbn. rewrite <- app_assoc. reflexivity. }
  split; [done|]. split; [by rewrite Hcont, Htext|].
  split; [by rewrite Hmeta, Htok, Hlat|].
  split; [by rewrite Hmet, Htok, Hlat|]. done.
Qed.

(** X9. If the first reply of the model carries a structured tool call
    whose argument string [json.loads] rejects, the exception of
    [json.loads] leaves [execute]: the run raises instead of returning
    a string, and the model is not called again. *)
Theorem execute_raises_on_malformed_arguments (w : wstate W) (s : Store)
    (a : Agent) (task_input : string) (resp : ChatResponse) (choice : Choice)
    (others : list Choice) (tc : NativeToolCall) (tcs : list NativeToolCall)
    (e : Exn) (rest : list (Out ChatResponse)) :
  (0 < max_steps a)%nat ->
  llm_replies W (execute a task_input) w s = inr resp :: rest ->
  choices resp = choice :: others ->
  native_calls_of choice = tc :: tcs ->
  json_loads (ntc_arguments tc) = inl e ->
  rest = []
  /\ exists w' s', run W (execute a task_input) w s = (inl e, w', s').
Proof.
  intros Hsteps Hrep Hc Hn He.
  destruct (execute_run W a task_input w s) as (uid & now & w1 & Hrun & Hreps).
  cbn zeta in Hrun, Hreps. rewrite Hreps in Hrep. rewrite Hrun. clear Hrun Hreps.
  destruct (max_steps a) as [|n]; [lia|].
  match type of Hrep with
  | llm_replies W (execute_loop a ?tools (S n) ?step ?msgs) w1 ?s1 = _ =>
      destruct (execute_loop_step W a tools n step msgs w1 s1)
        as (reply & w2 & Hstep)
  end.
  destruct reply as [e'|resp'].
  { destruct Hstep as [Hr _]. rewrite Hr in Hrep. discriminate. }
  destruct Hstep as [latency Hstep].
  assert (resp' = resp) as ->.
  { destruct (run W (read_reply _ latency resp') w2 _) as [[[e'|result] w3] s3];
      destruct Hstep as [Hr _]; rewrite Hr in Hrep; congruence. }
  match type of Hstep with
  | match run W _ w2 ?s1 with _ => _ end =>
      destruct (run_read_reply_native W (get_tools a) latency resp choice others
                  tc tcs w2 s1 Hc Hn) as (result & Hread & Hcalls)
  end.
  rewrite Hread in Hstep. destruct Hstep as [Hr Hrun].
  cbn [map] in Hcalls.
  match type of Hrun with
  | _ = run W (after_reply a ?tools n ?step ?msgs result) w2 ?s1 =>
      destruct (run_after_reply_malformed W a tools n step msgs result _ _ e
                  w2 s1 Hcalls He) as (w' & s' & Hfin & Hnone)
  end.
  rewrite Hr, Hnone in Hrep. split; [congruence|].
  exists w', s'. by rewrite Hrun.
Qed.

End ReplyTheorems.

Lemma execute_single_reply_witness :
  exists w' s' evs ev latency now,
    run ScriptedWorld (execute ThinkerAgent "What is 2 + 2?")
      plain_answer_script empty_store = (inr "2 + 2 = 4", w', s')
    /\ events (thread s') = evs ++ [ev]
    /\ event_type ev = AGENT_RESPONSE
    /\ content ev = "2 + 2 = 4"
    /\ metadata ev = [("tokens", 12); ("latency_ms", latency); ("step", 0)]
    /\ agent_metrics (thread s') =
         record_metrics "thinker" 12 latency true now ∅
    /\ objects s' = [].
Proof.
  destruct (execute_single_reply ScriptedWorld plain_answer_script empty_store
              ThinkerAgent "What is 2 + 2?"
              (mkChatResponse
                 [mkChoice (mkChatMessage (Some "<think>easy</think> 2 + 2 = 4 ")
                              None None None) "stop"]
                 (Some (mkUsage 7 5 12)))
              _ [] []
              ltac:(vm_compute; lia) ltac:(vm_compute; reflexivity)
              eq_refl eq_refl ltac:(right; vm_compute; reflexivity))
    as [_ H].
  exact H.
Defined.

Lemma execute_raises_on_malformed_arguments_witness :
  exists e w' s',
    json_loads "{query: rocq" = inl e
    /\ run ScriptedWorld (execute ResearcherAgent "Find papers about Rocq")
         malformed_call_script empty_store = (inl e, w', s').
Proof.
  eexists. 
  destruct (execute_raises_on_malformed_arguments ScriptedWorld
              malformed_call_script empty_store ResearcherAgent
              "Find papers about Rocq"
              (mkChatResponse
                 [mkChoice (mkChatMessage (Some EmptyString)
                              (Some [mkNativeToolCall "call_1" "web_search"
                                       "{query: rocq"])
                              None None) "stop"]
                 (Some (mkUsage 7 5 12)))
              _ [] (mkNativeToolCall "call_1" "web_search" "{query: rocq") []
              _ []
              ltac:(vm_compute; lia) ltac:(vm_compute; reflexivity)
              eq_refl eq_refl ltac:(vm_compute; reflexivity))
    as [_ (w' & s' & H)].
  exists w', s'. split; [vm_compute; reflexivity|exact H].
Defined.

(** ** The order of the sequential strategy *)

Section Sorting.
Context (key : nat -> Z).

Let before (a b : nat) : Prop :=
  key a < key b \/ (key a = key b /\ (a < b)%nat).

Lemma insert_by_perm i l : insert_by key i l ≡ₚ i :: l.
Proof.
  induction l as [|j l IH]; simpl; [done|].
  destruct (key i <=? key j); [done|].
  rewrite IH. apply Permutation_swap.
Qed.

Lemma before_trans a b c : before a b -> before b c -> before a c.
Proof. unfold before. lia. Qed.

Lemma insert_by_sorted i l :
  Forall (fun j => (i < j)%nat) l ->
  StronglySorted before l ->
  StronglySorted before (insert_by key i l).
Proof.
  intros Hlt Hs. induction Hs as [|j l Hs IH Hj]; simpl.
  - by repeat constructor.
  - apply Forall_cons in Hlt as [Hij Hlt].
    destruct (Z.leb_spec (key i) (key j)) as [Hle|Hgt].
    + constructor; [by constructor|]. constructor.
      * unfold before. lia.
      * eapply Forall_impl; [exact Hj|]. intros k Hk. cbv beta in Hk.
        unfold before in *. lia.
    + constructor; [by apply IH|].
      rewrite insert_by_perm. constructor; [|done]. unfold before. lia.
Qed.

Lemma foldr_insert_by n k :
  let l := foldr (insert_by key) [] (seq k n) in
  l ≡ₚ seq k n /\ StronglySorted before l.
Proof.
  revert k. induction n as [|n IH]; intros k; simpl.
  - split; [done|constructor].
  - destruct (IH (S k)) as [Hp Hs]. split.
    + by rewrite insert_by_perm, Hp.
    + apply insert_by_sorted; [|done]. rewrite Hp.
      apply Forall_forall. intros j Hj. apply elem_of_seq in Hj. lia.
Qed.

End Sorting.

(** X10. The order in which the sequential strategy visits the
    sub-tasks: every declared position exactly once, by ascending
    priority value and, among sub-tasks of equal priority, in the order
    of declaration -- the order of Python's stable [sorted]. *)
Theorem sorted_by_priority_stable (sts : list SubTask) :
  sorted_by_priority sts ≡ₚ seq 0 (length sts)
  /\ StronglySorted (runs_before sts) (sorted_by_priority sts).
Proof.
  unfold sorted_by_priority. cbv zeta.
  exact (foldr_insert_by (priority_at sts) (length sts) 0).
Qed.

(** ** The sequential strategy *)

Section Sequential.
Context `{RT : Runtime} (W : World) (ref : TaskRef).

Lemma run_get_subtask i w s t :
  objects s !! ref = Some t ->
  run W (get_subtask ref i) w s =
    (match sub_tasks t !! i with
     | Some st => inr st
     | None => inl (mkExn "ReferenceError" "no such object")
     end, w, s).
Proof.
  intros Ht. unfold get_subtask. rewrite run_bind, (run_get_task ref W w s t Ht).
  by destruct (sub_tasks t !! i).
Qed.

Lemma guar_strategy_run_subtask i ctx :
  guar (strategy_step ref) (_run_subtask PipelineEngine_init ref i ctx).
Proof.
  apply guar_run_subtask; [apply _| |].
  - intros r a Ha. by eapply specialists_ok.
  - intros. by apply strategy_subtask.
Qed.

(** A sub-task run leaves the task in place with its fixed parts. *)
Lemma run_subtask_header i ctx w s t :
  objects s !! ref = Some t ->
  exists t1,
    objects (run W (_run_subtask PipelineEngine_init ref i ctx) w s).2 !! ref
      = Some t1
    /\ header t1 = header t.
Proof.
  intros Ht.
  destruct (guar_run W (strategy_step ref)
              (_run_subtask PipelineEngine_init ref i ctx) w s
              (guar_strategy_run_subtask i ctx)) as [_ Hh].
  unfold keeps_header in Hh. unfold TaskRef in *. rewrite Ht in Hh.
  destruct (objects (run W _ w s).2 !! ref) as [t1|]; [|done].
  exists t1. split; [done|]. cbn in Hh. congruence.
Qed.

Lemma header_user_input t t' : header t' = header t -> user_input t' = user_input t.
Proof. unfold header. congruence. Qed.

Lemma run_sequential_loop (task : Task) (order : list nat) :
  forall previous labeled w s t,
    objects s !! ref = Some t ->
    header t = header task ->
    run W (acc <-
             fold_co order (previous, labeled)
               (fun acc i =>
                  task <- get_task ref ;;
                  subtask <- get_subtask ref i ;;
                  let enriched :=
                    sequential_prompt (user_input task) acc.1
                      (description subtask) in
                  result <- _run_subtask PipelineEngine_init ref i enriched ;;
                  subtask <- get_subtask ref i ;;
                  Ret (result,
                       acc.2 ++ ["[" +:+ AgentRole_value (assigned_agent subtask)
                                 +:+ "] " +:+ result])) ;;
           Ret (str_join separator acc.2)) w s
    = run W (sequential_from ref (user_input task) order previous labeled) w s.
Proof.
  induction order as [|i order IH]; intros previous labeled w s t Ht Hh; [done|].
  cbn [fold_co sequential_from].
  rewrite !run_bind, (run_get_task ref W w s t Ht).
  rewrite (run_bind W (get_subtask ref i)), (run_get_subtask i w s t Ht).
  destruct (sub_tasks t !! i) as [st|] eqn:Hst; [|done].
  cbn iota beta zeta. rewrite (header_user_input _ _ Hh).
  rewrite !(run_bind W (_run_subtask _ _ _ _)).
  destruct (run_subtask_header i
              (sequential_prompt (user_input task) previous (description st))
              w s t Ht) as (t1 & Ht1 & Hh1).
  destruct (run W (_run_subtask _ _ _ _) w s) as [[[e|result] w1] s1]; [done|].
  cbn [snd] in Ht1.
  rewrite run_bind, (run_get_subtask i w1 s1 t1 Ht1).
  destruct (sub_tasks t1 !! i) as [st1|] eqn:Hst1.
  - cbn iota beta. rewrite (header_agent _ _ _ _ _ Hh1 Hst Hst1).
    rewrite <- (IH result _ w1 s1 t1 Ht1 ltac:(congruence)).
    by rewrite run_bind.
  - apply lookup_ge_None in Hst1. apply lookup_lt_Some in Hst.
    pose proof (header_length _ _ Hh1). lia.
Qed.

Lemma prefix_append x b : String.prefix x (x +:+ b) = true.
Proof.
  induction x as [|c x IH]; simpl; [by destruct b|].
  by destruct (ascii_dec c c).
Qed.

Lemma str_contains_here x b : str_contains x (x +:+ b) = true.
Proof.
  assert (H : forall h, String.prefix x h = true -> str_contains x h = true).
  { intros h Hh. destruct h; cbn [str_contains]; by rewrite Hh. }
  apply H, prefix_append.
Qed.

Lemma str_contains_later x a b :
  str_contains x b = true -> str_contains x (a +:+ b) = true.
Proof.
  intros H. induction a as [|c a IH]; simpl; [done|].
  rewrite IH. apply orb_true_r.
Qed.

(** X11. The sequential strategy runs the sub-tasks one after the
    other in the order of [sorted_by_priority]; the prompt of each is
    built from the input that the task had at the start, the result of
    the sub-task run just before it (for the first one the input
    itself) and its own description, and contains that previous result
    verbatim; the result joins the results in that order, each labeled
    with the agent assigned at the start.  Re-reading the task in every
    iteration makes no difference. *)
Theorem sequential_chains_results (w : wstate W) (s : Store) (task : Task) :
  objects s !! ref = Some task ->
  run W (_sequential PipelineEngine_init ref) w s =
    run W (sequential_from ref (user_input task)
             (sorted_by_priority (sub_tasks task)) (user_input task) []) w s
  /\ forall request previous descr,
       str_contains previous (sequential_prompt request previous descr) = true.
Proof.
  intros Ht. split.
  - unfold _sequential.
    rewrite run_bind, (run_get_task ref W w s task Ht). cbn zeta.
    by apply run_sequential_loop with (t := task).
  - intros request previous descr. unfold sequential_prompt.
    do 6 apply str_contains_later. apply str_contains_here.
Qed.

End Sequential.

Lemma sequential_chains_results_witness :
  run ScriptedWorld (_sequential PipelineEngine_init 0%nat) example_script
    (example_store SEQUENTIAL) =
    run ScriptedWorld
      (sequential_from 0%nat "What is 2 + 2?" [1; 0; 2]%nat "What is 2 + 2?" [])
      example_script (example_store SEQUENTIAL)
  /\ forall request previous descr,
       str_contains previous (sequential_prompt request previous descr) = true.
Proof.
  exact (sequential_chains_results ScriptedWorld 0%nat example_script
           (example_store SEQUENTIAL) (example_task SEQUENTIAL) eq_refl).
Defined.
